(** * thug/AST/AST2.py: the static pass over a script's syntax tree

    The module walks the tree that [esprima.toDict] returns (nested Python
    dicts, lists, strings and numbers) and fills four collections on the
    analysis object: [names], [assignments], [breakpoints] and
    [shellcodes].  The embedding below keeps the tree untyped, as the code
    has it, gives every Python primitive the module uses ([k in v], [v[k]],
    [v.get(k)], truthiness, iteration) its dynamic behaviour including the
    exception it raises, and threads the object's fields through a
    state-and-exception monad. *)

From Stdlib Require Import ZArith.
From Stdlib.Strings Require Import Byte.
From stdpp Require Import gmap list numbers strings.

Set Warnings "-register-all".
Set Default Proof Using "Type".
#[local] Open Scope string_scope.
#[local] Open Scope list_scope.
#[local] Open Scope nat_scope.

(** ** Python values *)

(** A Python [str] is a sequence of code points; [len] counts them. *)
Definition pystr := list N.

Definition py (s : string) : pystr :=
  (λ a, Ascii.N_of_ascii a) <$> String.list_ascii_of_string s.
Coercion py : string >-> pystr.

(** The values a tree is made of.  Python's [bool] is a subclass of [int]
    with [True == 1] and [False == 0], and nothing in the module tells them
    apart, so a boolean field is its integer.  Dicts are finite maps: two
    dicts are [==] when they have the same keys with [==] values, which for
    these values is equality of the maps. *)
Inductive value :=
  | VNone
  | VInt (z : Z)
  | VStr (s : pystr)
  | VList (l : list value)
  | VDict (d : gmap pystr value).

Fixpoint value_eq_dec (a b : value) {struct a} : Decision (a = b).
Proof.
  refine
    match a, b with
    | VNone, VNone => left _
    | VInt x, VInt y => cast_if (decide (x = y))
    | VStr x, VStr y => cast_if (decide (x = y))
    | VList x, VList y =>
        cast_if (@decide (x = y) (@list_eq_dec _ value_eq_dec x y))
    | VDict x, VDict y =>
        cast_if (@decide (x = y) (@gmap_eq_dec _ _ _ _ value_eq_dec x y))
    | _, _ => right _
    end; congruence.
Defined.
#[global] Instance value_eqdec : EqDecision value := value_eq_dec.

(** A dict display [{k1: v1, ...}]; a later entry for a key replaces an
    earlier one, as in Python. *)
Definition dict (fields : list (pystr * value)) : value :=
  VDict (foldl (λ d kv, <[kv.1 := kv.2]> d) ∅ fields).

Definition field (k : pystr) (v : value) : pystr * value := (k, v).
Notation "k ':-' v" := (field k v) (at level 60, no associativity).

(** ** Exceptions and the Python primitives the module uses *)

Inductive exn :=
  | KeyError (k : pystr)
  | TypeError
  | AttributeError
  | UnicodeEncodeError
  | RegistryError.

#[global] Instance exn_eqdec : EqDecision exn.
Proof. solve_decision. Defined.

Inductive result (A : Type) :=
  | Ok (a : A)
  | Exc (e : exn).
Arguments Ok {A} a.
Arguments Exc {A} e.

Fixpoint is_prefix (k s : pystr) : bool :=
  match k, s with
  | [], _ => true
  | a :: k', b :: s' => (a =? b)%N && is_prefix k' s'
  | _ :: _, [] => false
  end.

Fixpoint substring (k s : pystr) : bool :=
  is_prefix k s ||
  match s with
  | [] => false
  | _ :: s' => substring k s'
  end.

(** [k in v] for a string [k]: key membership in a dict, element membership
    in a list, substring test in a string, [TypeError] otherwise. *)
Definition contains (k : pystr) (v : value) : result bool :=
  match v with
  | VDict d => Ok (bool_decide (is_Some (d !! k)))
  | VList l => Ok (bool_decide (VStr k ∈ l))
  | VStr s => Ok (substring k s)
  | VNone | VInt _ => Exc TypeError
  end.

(** [v[k]] for a string [k]. *)
Definition getitem (v : value) (k : pystr) : result value :=
  match v with
  | VDict d =>
      match d !! k with
      | Some x => Ok x
      | None => Exc (KeyError k)
      end
  | _ => Exc TypeError
  end.

(** [v.get(k, None)]: only dicts have the method. *)
Definition get (v : value) (k : pystr) : result value :=
  match v with
  | VDict d => Ok (default VNone (d !! k))
  | _ => Exc AttributeError
  end.

Definition truthy (v : value) : bool :=
  match v with
  | VNone => false
  | VInt z => negb (z =? 0)%Z
  | VStr s => negb (bool_decide (s = []))
  | VList l => negb (bool_decide (l = []))
  | VDict d => negb (bool_decide (d = ∅))
  end.

(** [for item in v]: the elements of a list, the keys of a dict, the
    characters of a string. *)
Definition iter (v : value) : result (list value) :=
  match v with
  | VList l => Ok l
  | VDict d => Ok ((λ kv, VStr kv.1) <$> map_to_list d)
  | VStr s => Ok ((λ c, VStr [c]) <$> s)
  | VNone | VInt _ => Exc TypeError
  end.

(** [sc.encode('latin1')]: defined when every code point is below 256. *)
Definition encode_latin1 (s : pystr) : option (list byte) :=
  mapM Byte.of_N s.

(** The values directly below [v], all values down to depth [n], and
    whether [v] has no value deeper than [n]. *)
Definition children (v : value) : list value :=
  match v with
  | VList l => l
  | VDict d => (map_to_list d).*2
  | _ => []
  end.

Fixpoint descendants (n : nat) (v : value) : list value :=
  v :: match n with
       | 0 => []
       | S n' => concat (descendants n' <$> children v)
       end.

Fixpoint height_le (n : nat) (v : value) : bool :=
  match n with
  | 0 => bool_decide (children v = [])
  | S n' => forallb (height_le n') (children v)
  end.

#[global] Instance result_eqdec {A} `{EqDecision A} : EqDecision (result A).
Proof. solve_decision. Defined.


(** ** The analysis object *)

(** The dict [{'name': .., 'scope': .., ['value': ..]}] built for a binding.
    Two such dicts are [==] exactly when they have the same keys with equal
    values, so a record with a ['value'] differs from one without. *)
Record name_rec := NameRec {
  nr_name : value;
  nr_scope : value;
  nr_value : option value;
}.

#[global] Instance name_rec_eqdec : EqDecision name_rec.
Proof. solve_decision. Defined.

(** The dict [{'type': .., 'line': .., 'scope': ..}] of a breakpoint. *)
Record breakpoint := Breakpoint {
  bp_type : Z;
  bp_line : value;
  bp_scope : value;
}.

#[global] Instance breakpoint_eqdec : EqDecision breakpoint.
Proof. solve_decision. Defined.

Definition ASSIGN_BREAKPOINT : Z := 0.
Definition LOOP_BREAKPOINT : Z := 1.

Definition ASSIGN_OPERATORS : list value :=
  [VStr "="; VStr "+="; VStr "-="; VStr "*="; VStr "/="; VStr "%=";
   VStr "<<="; VStr ">>="; VStr ">>>="; VStr "|="; VStr "^="; VStr "&="].

(** ** Trees of concrete scripts

    Nodes as [esprima.toDict] lays them out (a key whose value would be
    [None] is left out of the dict), used to run the module on inputs. *)

Definition loc (first last : Z) : value :=
  dict ["start" :- dict ["line" :- VInt first];
        "end" :- dict ["line" :- VInt last]].

Definition Identifier (x : pystr) (line : Z) : value :=
  dict ["type" :- VStr "Identifier"; "name" :- VStr x;
        "loc" :- loc line line].

Definition Literal (v : value) (raw : pystr) (line : Z) : value :=
  dict ["type" :- VStr "Literal"; "value" :- v; "raw" :- VStr raw;
        "loc" :- loc line line].

Definition VariableDeclarator (id : value) (init : option value) (line : Z)
    : value :=
  dict (["type" :- VStr "VariableDeclarator"; "id" :- id;
         "loc" :- loc line line] ++
        match init with
        | Some i => ["init" :- i]
        | None => []
        end).

Definition VariableDeclaration (decls : list value) (line : Z) : value :=
  dict ["type" :- VStr "VariableDeclaration";
        "declarations" :- VList decls; "kind" :- VStr "var";
        "loc" :- loc line line].

Definition AssignmentExpression (op : pystr) (left right : value) (line : Z)
    : value :=
  dict ["type" :- VStr "AssignmentExpression"; "operator" :- VStr op;
        "left" :- left; "right" :- right; "loc" :- loc line line].

Definition ExpressionStatement (e : value) (line : Z) : value :=
  dict ["type" :- VStr "ExpressionStatement"; "expression" :- e;
        "loc" :- loc line line].

Definition BlockStatement (body : list value) (first last : Z) : value :=
  dict ["type" :- VStr "BlockStatement"; "body" :- VList body;
        "loc" :- loc first last].

Definition ForStatement (body : value) (first last : Z) : value :=
  dict ["type" :- VStr "ForStatement"; "body" :- body;
        "loc" :- loc first last].

Definition Program (body : list value) : value :=
  dict ["type" :- VStr "Program"; "body" :- VList body;
        "sourceType" :- VStr "script"].

Definition FunctionDeclaration (f : pystr) (body : list value)
    (first last : Z) : value :=
  dict ["type" :- VStr "FunctionDeclaration"; "id" :- Identifier f first;
        "params" :- VList []; "body" :- BlockStatement body first last;
        "loc" :- loc first last].

Definition ReturnStatement (argument : value) (line : Z) : value :=
  dict ["type" :- VStr "ReturnStatement"; "argument" :- argument;
        "loc" :- loc line line].

Definition CallExpression (callee : value) (arguments : list value)
    (line : Z) : value :=
  dict ["type" :- VStr "CallExpression"; "callee" :- callee;
        "arguments" :- VList arguments; "loc" :- loc line line].

(** The declaration of
    [function foo(bar) {]
    [    var a;]
    [    a = "qwerty";]
    [    return a;]
    [}]
    on lines 2 to 6. *)
Definition function_foo_body : list value :=
  [VariableDeclaration [VariableDeclarator (Identifier "a" 3) None 3] 3;
   ExpressionStatement
     (AssignmentExpression "=" (Identifier "a" 4)
        (Literal (VStr "qwerty") "'qwerty'" 4) 4) 4;
   ReturnStatement (Identifier "a" 5) 5].

Definition function_foo : value :=
  FunctionDeclaration "foo" function_foo_body 2 6.


(** [var x = 5;] on line 1 and again on line 2 *)
Definition script_var_x_5_twice : value :=
  Program
    [VariableDeclaration
       [VariableDeclarator (Identifier "x" 1)
          (Some (Literal (VInt 5) "5" 1)) 1] 1;
     VariableDeclaration
       [VariableDeclarator (Identifier "x" 2)
          (Some (Literal (VInt 5) "5" 2)) 2] 2].

(** [var x;] on line 1, [var x = 5;] on line 2 *)
Definition script_var_x_then_5 : value :=
  Program
    [VariableDeclaration
       [VariableDeclarator (Identifier "x" 1) None 1] 1;
     VariableDeclaration
       [VariableDeclarator (Identifier "x" 2)
          (Some (Literal (VInt 5) "5" 2)) 2] 2].

(** A string of forty [A]s and its source text. *)
Definition forty_A : pystr := replicate 40 65%N.
Definition forty_A_raw : pystr := [34%N] ++ forty_A ++ [34%N].

Definition BinaryExpression (op : pystr) (left right : value) (line : Z)
    : value :=
  dict ["type" :- VStr "BinaryExpression"; "operator" :- VStr op;
        "left" :- left; "right" :- right; "loc" :- loc line line].

Definition MemberExpression (object property : value) (line : Z) : value :=
  dict ["type" :- VStr "MemberExpression"; "computed" :- VInt 0;
        "object" :- object; "property" :- property; "loc" :- loc line line].

(** [x == 1;] *)
Definition comparison_statement : value :=
  ExpressionStatement
    (BinaryExpression "==" (Identifier "x" 1) (Literal (VInt 1) "1" 1) 1) 1.

(** [a.b = 1;] *)
Definition member_assignment : value :=
  ExpressionStatement
    (AssignmentExpression "="
       (MemberExpression (Identifier "a" 1) (Identifier "b" 1) 1)
       (Literal (VInt 1) "1" 1) 1) 1.


(** [return 'AAAA...A';] with forty [A]s *)
Definition return_long_literal : value :=
  ReturnStatement (Literal (VStr forty_A) forty_A_raw 1) 1.

(** [callme("short", "AAAA...A");] *)
Definition call_with_literals : value :=
  ExpressionStatement
    (CallExpression (Identifier "callme" 1)
       [Literal (VStr "short") "'short'" 1;
        Literal (VStr forty_A) forty_A_raw 1] 1) 1.

(** Thirty-two copies of U+4E2D, which has no single-byte form. *)
Definition thirty_two_wide : pystr := replicate 32 20013%N.

(** [var a = "AAAA...A";] with forty [A]s *)
Definition script_var_long_literal : value :=
  Program
    [VariableDeclaration
       [VariableDeclarator (Identifier "a" 1)
          (Some (Literal (VStr forty_A) forty_A_raw 1)) 1] 1].

(** The loop of
    [for (;;) {]
    [  s += "a";]
    [}]
    which starts on line 1 and ends on line 3. *)
Definition for_three_lines : value :=
  ForStatement
    (BlockStatement
       [ExpressionStatement
          (AssignmentExpression "+=" (Identifier "s" 2)
             (Literal (VStr "a") "'a'" 2) 2) 2] 1 3) 1 3.

(** The declaration of [var [a] = [1];]: the declarator's [id] is an
    array pattern, which has no ['name']. *)
Definition var_array_pattern : value :=
  VariableDeclaration
    [VariableDeclarator
       (dict ["type" :- VStr "ArrayPattern";
              "elements" :- VList [Identifier "a" 1]; "loc" :- loc 1 1])
       (Some (dict ["type" :- VStr "ArrayExpression";
                    "elements" :- VList [Literal (VInt 1) "1" 1];
                    "loc" :- loc 1 1])) 1] 1.

(** A declaration whose declarator has no ['id'] at all. *)
Definition var_without_id : value :=
  VariableDeclaration
    [dict ["type" :- VStr "VariableDeclarator"; "loc" :- loc 1 1]] 1.

(** An assignment statement whose expression has no ['left']. *)
Definition assignment_without_left : value :=
  ExpressionStatement
    (dict ["type" :- VStr "AssignmentExpression"; "operator" :- VStr "=";
           "right" :- Literal (VInt 1) "1" 1; "loc" :- loc 1 1]) 1.

Definition IfStatement (test consequent : value) (alternate : option value)
    (first last : Z) : value :=
  dict (["type" :- VStr "IfStatement"; "test" :- test;
         "consequent" :- consequent; "loc" :- loc first last] ++
        match alternate with
        | Some a => ["alternate" :- a]
        | None => []
        end).

Definition WhileStatement (test body : value) (first last : Z) : value :=
  dict ["type" :- VStr "WhileStatement"; "test" :- test; "body" :- body;
        "loc" :- loc first last].

Definition SequenceExpression (expressions : list value) (line : Z) : value :=
  dict ["type" :- VStr "SequenceExpression";
        "expressions" :- VList expressions; "loc" :- loc line line].

(** [var x;] on a given line, as a statement. *)
Definition var_statement (x : pystr) (line : Z) : value :=
  VariableDeclaration [VariableDeclarator (Identifier x line) None line] line.

(** [y = "AAAA...A";] with forty [A]s *)
Definition assign_long_literal : value :=
  ExpressionStatement
    (AssignmentExpression "=" (Identifier "y" 1)
       (Literal (VStr forty_A) forty_A_raw 1) 1) 1.

(** [if (a) { var t; } else { var e; }] *)
Definition if_with_two_blocks : value :=
  IfStatement (Identifier "a" 1)
    (BlockStatement [var_statement "t" 1] 1 1)
    (Some (BlockStatement [var_statement "e" 1] 1 1)) 1 1.

(** [if (a) y = "AAAA...A"; else if (b) { var z; }] *)
Definition if_without_blocks : value :=
  IfStatement (Identifier "a" 1) assign_long_literal
    (Some (IfStatement (Identifier "b" 1)
             (BlockStatement [var_statement "z" 1] 1 1) None 1 1)) 1 1.

(** [if (a) while (b) {}] *)
Definition if_with_bare_loop : value :=
  IfStatement (Identifier "a" 1)
    (WhileStatement (Identifier "b" 1) (BlockStatement [] 1 1) 1 1) None 1 1.

(** [a = 1, b = "AAAA...A";] *)
Definition sequence_statement : value :=
  ExpressionStatement
    (SequenceExpression
       [AssignmentExpression "=" (Identifier "a" 1)
          (Literal (VInt 1) "1" 1) 1;
        AssignmentExpression "=" (Identifier "b" 1)
          (Literal (VStr forty_A) forty_A_raw 1) 1] 1) 1.

(** [eval("AAAA...A")], the expression *)
Definition call_long_literal : value :=
  CallExpression (Identifier "eval" 1)
    [Literal (VStr forty_A) forty_A_raw 1] 1.

(** [var x = 5;] and [var a = b;] on line 2, as statements *)
Definition var_x_5 : value :=
  VariableDeclaration
    [VariableDeclarator (Identifier "x" 2)
       (Some (Literal (VInt 5) "5" 2)) 2] 2.

Definition var_a_b : value :=
  VariableDeclaration
    [VariableDeclarator (Identifier "a" 2) (Some (Identifier "b" 2)) 2] 2.

(** The function of the module's test of returned literals:
    [function test1() {]
    [    var test2 = 1;]
    [    return 'AAAA...A';]
    [}] *)
Definition function_test1 : value :=
  FunctionDeclaration "test1"
    [VariableDeclaration
       [VariableDeclarator (Identifier "test2" 3)
          (Some (Literal (VInt 1) "1" 3)) 3] 3;
     ReturnStatement (Literal (VStr forty_A) forty_A_raw 4) 4] 2 5.


(** A registry that keeps what it is given, and one whose [add] raises. *)
Definition list_registry_add (r : list (list byte)) (b : list byte)
    : option (list (list byte)) :=
  Some (b :: r).

Definition failing_registry_add (r : list (list byte)) (b : list byte)
    : option (list (list byte)) :=
  None.

(** Parsers that return a given tree, and one that always raises. *)
Definition parse_as (tree : value) (script : pystr) : option value :=
  Some tree.

Definition parse_fails (script : pystr) : option value := None.

(** How a call ends: it returns, it raises, or the recursion budget of the
    embedding is spent. *)
Inductive outcome (A : Type) :=
  | Done (a : A)
  | Raise (e : exn)
  | OutOfFuel.
Arguments Done {A} a.
Arguments Raise {A} e.
Arguments OutOfFuel {A}.

Section AST.

(** The collaborator behind [log.ThugLogging.shellcodes]: its [add] either
    returns the updated registry or raises. *)
Context {Registry : Type}.
Variable registry_add : Registry → list byte → option Registry.

(** [esprima.parse] followed by [esprima.toDict]: the tree of a script, or
    [None] when either raises. *)
Variable esprima_parse : pystr → option value.

(** The fields of an [AST] instance.  [names] and [assignments] are Python
    lists of references to name dicts: [heap] is the store those references
    point into, so that a dict appended to both lists, or mutated after it
    was appended, is one object.  [ast] is unset until the parse succeeds.
    [ThugLogging] is the module-level [log.ThugLogging], absent unless the
    surrounding framework installed it. *)
Record AST := mkAST {
  heap : list name_rec;
  names : list nat;
  assignments : list nat;
  breakpoints : list breakpoint;
  calls : gset pystr;
  shellcodes : gset pystr;
  window : value;
  ast : option value;
  ThugLogging : option Registry;
}.

Definition with_heap (f : list name_rec → list name_rec) (self : AST) : AST :=
  mkAST (f (heap self)) (names self) (assignments self) (breakpoints self)
    (calls self) (shellcodes self) (window self) (ast self) (ThugLogging self).

Definition with_names (f : list nat → list nat) (self : AST) : AST :=
  mkAST (heap self) (f (names self)) (assignments self) (breakpoints self)
    (calls self) (shellcodes self) (window self) (ast self) (ThugLogging self).

Definition with_assignments (f : list nat → list nat) (self : AST) : AST :=
  mkAST (heap self) (names self) (f (assignments self)) (breakpoints self)
    (calls self) (shellcodes self) (window self) (ast self) (ThugLogging self).

Definition with_breakpoints (f : list breakpoint → list breakpoint)
    (self : AST) : AST :=
  mkAST (heap self) (names self) (assignments self) (f (breakpoints self))
    (calls self) (shellcodes self) (window self) (ast self) (ThugLogging self).

Definition with_shellcodes (f : gset pystr → gset pystr) (self : AST) : AST :=
  mkAST (heap self) (names self) (assignments self) (breakpoints self)
    (calls self) (f (shellcodes self)) (window self) (ast self)
    (ThugLogging self).

Definition with_ast (tree : value) (self : AST) : AST :=
  mkAST (heap self) (names self) (assignments self) (breakpoints self)
    (calls self) (shellcodes self) (window self) (Some tree)
    (ThugLogging self).

Definition with_ThugLogging (r : Registry) (self : AST) : AST :=
  mkAST (heap self) (names self) (assignments self) (breakpoints self)
    (calls self) (shellcodes self) (window self) (ast self) (Some r).

(** What a reader of [self.names] and [self.assignments] sees. *)
Definition names_view (self : AST) : list name_rec :=
  omap (λ r, heap self !! r) (names self).

Definition assignments_view (self : AST) : list name_rec :=
  omap (λ r, heap self !! r) (assignments self).

(** ** Statements: state and exceptions *)

Definition M (A : Type) : Type := AST → outcome A * AST.

#[local] Instance M_ret : MRet M := λ A a self, (Done a, self).

#[local] Instance M_bind : MBind M := λ A B f m self,
  match m self with
  | (Done a, self') => f a self'
  | (Raise e, self') => (Raise e, self')
  | (OutOfFuel, self') => (OutOfFuel, self')
  end.

Definition lift {A} (r : result A) : M A := λ self,
  match r with
  | Ok a => (Done a, self)
  | Exc e => (Raise e, self)
  end.

(** A [return], a [continue], or the end of a branch. *)
Definition skip : M unit := mret ().

Definition modify (f : AST → AST) : M unit := λ self, (Done (), f self).

Definition out_of_fuel : M unit := λ self, (OutOfFuel, self).

(** [try: m  except: h], with the bare [except] of the source. *)
Definition try_except (m h : M unit) : M unit := λ self,
  match m self with
  | (Raise _, self') => h self'
  | r => r
  end.

Fixpoint for_each (items : list value) (body : value → M unit) : M unit :=
  match items with
  | [] => skip
  | item :: rest => body item;; for_each rest body
  end.

(** ** The methods of [AST] *)

(** [name = {'name': n, 'scope': scope}]: a new dict object. *)
Definition new_name (n scope : value) : M nat := λ self,
  (Done (length (heap self)),
   with_heap (λ h, h ++ [NameRec n scope None]) self).

(** [if name not in self.names: self.names.append(name)] *)
Definition names_append_if_new (r : nat) : M unit := λ self,
  match heap self !! r with
  | Some rec =>
      if bool_decide (rec ∈ names_view self) then (Done (), self)
      else (Done (), with_names (λ l, l ++ [r]) self)
  | None => (Done (), self)
  end.

(** [if name not in self.assignments: self.assignments.append(name)] *)
Definition assignments_append_if_new (r : nat) : M unit := λ self,
  match heap self !! r with
  | Some rec =>
      if bool_decide (rec ∈ assignments_view self) then (Done (), self)
      else (Done (), with_assignments (λ l, l ++ [r]) self)
  | None => (Done (), self)
  end.

(** [name['value'] = raw]: the dict itself is updated. *)
Definition set_value (r : nat) (raw : value) : M unit :=
  modify (with_heap (λ h,
    match h !! r with
    | Some rec => <[r := NameRec (nr_name rec) (nr_scope rec) (Some raw)]> h
    | None => h
    end)).

(** [if bp not in self.breakpoints: self.breakpoints.append(bp)] *)
Definition record_breakpoint (bp : breakpoint) (self : AST) : AST :=
  if bool_decide (bp ∈ breakpoints self) then self
  else with_breakpoints (λ l, l ++ [bp]) self.

Definition set_breakpoint (stmt scope : value) (_type : Z) : M unit :=
  loc ← lift (getitem stmt "loc");
  e ← lift (getitem loc "end");
  line ← lift (getitem e "line");
  modify (record_breakpoint (Breakpoint _type line scope)).

(** The body of the [try] in [add_shellcode]:
    [log.ThugLogging.shellcodes.add(sc.encode('latin1'))]. *)
Definition registry_forward (s : pystr) : M unit := λ self,
  match ThugLogging self with
  | None => (Raise AttributeError, self)
  | Some r =>
      match encode_latin1 s with
      | None => (Raise UnicodeEncodeError, self)
      | Some b =>
          match registry_add r b with
          | Some r' => (Done (), with_ThugLogging r' self)
          | None => (Raise RegistryError, self)
          end
      end
  end.

Definition add_shellcode (sc : value) : M unit :=
  match sc with
  | VStr s =>
      if (length s <? 32)%nat then skip
      else try_except (registry_forward s)
             (modify (with_shellcodes (λ S, {[s]} ∪ S)))
  | _ => skip
  end.

Definition onLiteral (litr scope : value) : M unit :=
  if negb (truthy litr) then skip else
  v ← lift (get litr "value");
  if truthy v then add_shellcode v else skip.

Definition onReturnStatement (stmt scope : value) : M unit :=
  if negb (truthy stmt) then skip else
  b ← lift (contains "argument" stmt);
  if negb b then skip else
  arg ← lift (getitem stmt "argument");
  v ← lift (get arg "value");
  if truthy v then add_shellcode v else skip.

Definition onForStatement (stmt scope : value) : M unit :=
  set_breakpoint stmt scope LOOP_BREAKPOINT.

Definition onWhileStatement (stmt scope : value) : M unit :=
  set_breakpoint stmt scope LOOP_BREAKPOINT.

Definition onDoWhileStatement (stmt scope : value) : M unit :=
  set_breakpoint stmt scope LOOP_BREAKPOINT.

Definition onForInStatement (stmt scope : value) : M unit :=
  set_breakpoint stmt scope LOOP_BREAKPOINT.

(** [walk] and the handlers that recurse take the dispatcher [_walk] they
    call back into as [dispatch]. *)
Section handlers.
Variable dispatch : value → value → M unit.

(** [self.ast]: an [AttributeError] while the attribute is unset. *)
Definition self_ast : M value := λ self,
  match ast self with
  | Some tree => (Done tree, self)
  | None => (Raise AttributeError, self)
  end.

Definition walk_with (body scope : value) : M unit :=
  body ← (if bool_decide (body = VNone)
          then tree ← self_ast; lift (getitem tree "body")
          else mret body);
  items ← lift (iter body);
  for_each items (λ item, dispatch item scope).

Definition handleAssignmentExpression (stmt scope : value) : M unit :=
  b ← lift (contains "expression" stmt);
  if negb b then skip else
  expression ← lift (getitem stmt "expression");
  b ← lift (contains "operator" expression);
  if negb b then skip else
  operator ← lift (getitem expression "operator");
  if negb (bool_decide (operator ∈ ASSIGN_OPERATORS)) then skip else
  left ← lift (getitem expression "left");
  b ← lift (contains "name" left);
  (if b : bool then
     n ← lift (getitem left "name");
     name ← new_name n scope;
     names_append_if_new name
   else skip);;
  dispatch left scope;;
  right ← lift (getitem expression "right");
  dispatch right scope;;
  set_breakpoint stmt scope ASSIGN_BREAKPOINT.

Definition handleCallExpression (stmt scope : value) : M unit :=
  b ← lift (contains "expression" stmt);
  if negb b then skip else
  expression ← lift (getitem stmt "expression");
  b ← lift (contains "arguments" expression);
  if negb b then skip else
  arguments ← lift (getitem expression "arguments");
  ps ← lift (iter arguments);
  for_each ps (λ p,
    b ← lift (contains "type" p);
    if negb b then skip else
    t ← lift (getitem p "type");
    if bool_decide (t ∈ [VStr "Literal"]) then onLiteral p scope
    else skip).

(** [getattr(self, 'handle{}'.format(t), None)]: only a string can spell
    the rest of a method's name. *)
Definition getattr_handle (t : value) : option (value → value → M unit) :=
  match t with
  | VStr s =>
      if bool_decide (s = "AssignmentExpression")
      then Some handleAssignmentExpression
      else if bool_decide (s = "CallExpression")
      then Some handleCallExpression
      else None
  | _ => None
  end.

Definition onExpressionStatement (stmt scope : value) : M unit :=
  b ← lift (contains "expression" stmt);
  if negb b then skip else
  expression ← lift (getitem stmt "expression");
  b ← lift (contains "type" expression);
  if negb b then skip else
  t ← lift (getitem expression "type");
  match getattr_handle t with
  | Some handler => handler stmt scope
  | None => skip
  end.

(** The body of the [for decl in item['declarations']] loop. *)
Definition declare (decl scope : value) : M unit :=
  b ← lift (contains "type" decl);
  if negb b then skip else
  t ← lift (getitem decl "type");
  if negb (bool_decide (t ∈ [VStr "VariableDeclarator"])) then skip else
  id ← lift (getitem decl "id");
  n ← lift (getitem id "name");
  name ← new_name n scope;
  names_append_if_new name;;
  b ← lift (contains "init" decl);
  if b : bool then
    set_breakpoint decl scope ASSIGN_BREAKPOINT;;
    init ← lift (getitem decl "init");
    b ← lift (contains "raw" init);
    if b : bool then
      raw ← lift (getitem init "raw");
      set_value name raw;;
      assignments_append_if_new name
    else skip
  else skip.

Definition onVariableDeclaration (item scope : value) : M unit :=
  b ← lift (contains "declarations" item);
  if negb b then skip else
  declarations ← lift (getitem item "declarations");
  decls ← lift (iter declarations);
  for_each decls (λ decl, declare decl scope).

Definition onFunctionDeclaration (decl scope : value) : M unit :=
  b ← lift (contains "id" decl);
  if negb b then skip else
  id ← lift (getitem decl "id");
  b ← lift (contains "name" id);
  if negb b then skip else
  func_name ← lift (getitem id "name");
  b ← lift (contains "body" decl);
  if negb b then skip else
  body ← lift (getitem decl "body");
  b ← lift (contains "body" body);
  if negb b then skip else
  stmts ← lift (getitem body "body");
  walk_with stmts func_name.

Definition onIfStatement (stmt scope : value) : M unit :=
  b ← lift (contains "alternate" stmt);
  (if b : bool then
     alternate ← lift (getitem stmt "alternate");
     body ← lift (get alternate "body");
     if truthy body then walk_with body scope else skip
   else skip);;
  b ← lift (contains "consequent" stmt);
  if b : bool then
    consequent ← lift (getitem stmt "consequent");
    body ← lift (get consequent "body");
    if truthy body then walk_with body scope else skip
  else skip.

(** [getattr(self, "on{}".format(t), None)] *)
Definition getattr_on (t : value) : option (value → value → M unit) :=
  match t with
  | VStr s =>
      if bool_decide (s = "ExpressionStatement")
      then Some onExpressionStatement
      else if bool_decide (s = "VariableDeclaration")
      then Some onVariableDeclaration
      else if bool_decide (s = "FunctionDeclaration")
      then Some onFunctionDeclaration
      else if bool_decide (s = "IfStatement") then Some onIfStatement
      else if bool_decide (s = "ForStatement") then Some onForStatement
      else if bool_decide (s = "WhileStatement") then Some onWhileStatement
      else if bool_decide (s = "DoWhileStatement")
      then Some onDoWhileStatement
      else if bool_decide (s = "ForInStatement") then Some onForInStatement
      else if bool_decide (s = "Literal") then Some onLiteral
      else if bool_decide (s = "ReturnStatement")
      then Some onReturnStatement
      else None
  | _ => None
  end.

Definition _walk_with (item scope : value) : M unit :=
  t ← lift (getitem item "type");
  match getattr_on t with
  | Some handler => handler item scope
  | None => skip
  end.
End handlers.

(** [_walk] with a budget of nested calls: each call spends one unit and
    every call it makes gets what is left. *)
Fixpoint _walk (fuel : nat) (item scope : value) : M unit :=
  match fuel with
  | 0 => out_of_fuel
  | S fuel' => _walk_with (_walk fuel') item scope
  end.

Definition walk (fuel : nat) (body scope : value) : M unit :=
  walk_with (_walk fuel) body scope.

(** The state [__init__] starts from. *)
Definition init_state (window : value) (tl : option Registry) : AST :=
  mkAST [] [] [] [] ∅ ∅ window None tl.

(** [AST(script, window)]: the fields as the constructor leaves them, and
    how the constructor ended. *)
Definition __init__ (fuel : nat) (script : pystr) (window : value)
    (tl : option Registry) : outcome unit * AST :=
  let self := init_state window tl in
  match esprima_parse script with
  | None => (Done (), self)
  | Some tree => walk fuel VNone VNone (with_ast tree self)
  end.

(** ** Vocabulary of the specifications *)

(** [triple P m Q E]: run from a state in [P], [m] ends in [Q] when it
    returns and in [E] when it does not. *)
Definition triple {A} (P : AST → Prop) (m : M A) (Q : A → AST → Prop)
    (E : AST → Prop) : Prop :=
  ∀ self, P self →
    match m self with
    | (Done a, self') => Q a self'
    | (_, self') => E self'
    end.

(** [keeps P m]: [P] survives [m] however [m] ends. *)
Definition keeps {A} (P : AST → Prop) (m : M A) : Prop :=
  triple P m (λ _, P) P.

(** The bindings, value assignments and breakpoints of an analysis, as
    stored. *)
Definition findings (self : AST)
    : list name_rec * list nat * list nat * list breakpoint :=
  (heap self, names self, assignments self, breakpoints self).

(** A value that is a dict. *)
Definition is_dict (v : value) : Prop := ∃ d, v = VDict d.

(** Where shellcode candidates are kept: the local set and the registry. *)
Definition stores (self : AST) : gset pystr * option Registry :=
  (shellcodes self, ThugLogging self).

(** Every reference held by [names] and [assignments] points into the
    store. *)
Definition refs_valid (self : AST) : Prop :=
  (∀ r, r ∈ names self → r < length (heap self)) ∧
  (∀ r, r ∈ assignments self → r < length (heap self)).

(** The node kinds [_walk] has a statement handler for; a node of any other
    kind is left alone, except a literal, whose value is inspected. *)
Definition statement_kinds : list pystr :=
  [py "ExpressionStatement"; py "VariableDeclaration";
   py "FunctionDeclaration"; py "IfStatement"; py "ForStatement";
   py "WhileStatement"; py "DoWhileStatement"; py "ForInStatement";
   py "ReturnStatement"].

Definition loop_kinds : list pystr :=
  [py "ForStatement"; py "WhileStatement"; py "DoWhileStatement";
   py "ForInStatement"].

(** An expression node: a dict whose ['type'] is not a statement kind. *)
Definition is_expression (v : value) : Prop :=
  ∃ t, getitem v "type" = Ok (VStr t) ∧ t ∉ statement_kinds.

(** [child v w]: [v] is an element of the list [w] or a value of the dict
    [w]; [inside v w]: [v] is [w] or lies somewhere within it. *)
Inductive child : value → value → Prop :=
  | child_list v l : v ∈ l → child v (VList l)
  | child_dict v d k : d !! k = Some v → child v (VDict d).

Definition inside : value → value → Prop := rtc child.

(** [f] is the name of a function declaration found in [v]. *)
Definition is_function_name (f v : value) : Prop :=
  ∃ decl id,
    inside decl v ∧
    getitem decl "type" = Ok (VStr "FunctionDeclaration") ∧
    getitem decl "id" = Ok id ∧
    getitem id "name" = Ok f.

(** [m] returns or raises: its recursion budget was enough. *)
Definition settles {A} (m : M A) : Prop :=
  ∀ self, (m self).1 ≠ OutOfFuel.

(** No dict of the tree maps ['body'] to [None] ([esprima.toDict] leaves
    such keys out).  A function declaration whose statement list is [None]
    would make [walk] start over from the root of the tree. *)
Definition no_null_body (v : value) : Prop :=
  ∀ d, inside (VDict d) v → d !! py "body" ≠ Some VNone.

(** What a handler working on [root] may hand to the dispatcher: a value
    found inside a child of [root], or a string met while iterating. *)
Definition dispatched_from (root v : value) : Prop :=
  ∃ w, child w root ∧ (inside v w ∨ ∃ s, v = VStr s).

(** [Sc] admits the name of every function declaration found in [v], and
    [Re] holds if there is one. *)
Definition admits (Sc : value → Prop) (Re : Prop) (v : value) : Prop :=
  ∀ f, is_function_name f v → Sc f ∧ Re.



(** A binding record without its ['value']. *)
Definition plain (rec : name_rec) : name_rec :=
  NameRec (nr_name rec) (nr_scope rec) None.

(** How a value assignment relates to the bindings: its dict carries a
    ['value'], and either the same dict is in [names], or [names] holds an
    equal dict without the ['value']. *)
Definition assignments_aliased (self : AST) : Prop :=
  refs_valid self ∧
  ∀ a, a ∈ assignments self →
    ∃ rec, heap self !! a = Some rec ∧ is_Some (nr_value rec) ∧
      (a ∈ names self ∨ plain rec ∈ names_view self).

(** A candidate is kept: forwarded to the registry in single-byte form, or
    added to the local set as it is. *)
Definition forwarded (s : pystr) (self self' : AST) : Prop :=
  ∃ r b r', ThugLogging self = Some r ∧ encode_latin1 s = Some b ∧
    registry_add r b = Some r' ∧ self' = with_ThugLogging r' self.

Definition added_locally (s : pystr) (self self' : AST) : Prop :=
  self' = with_shellcodes (λ S, {[s]} ∪ S) self.

(** The literal arguments of a call, and the value [onLiteral] reads off a
    literal. *)
Definition is_literal (p : value) : bool :=
  match getitem p "type" with
  | Ok t => bool_decide (t ∈ [VStr "Literal"])
  | Exc _ => false
  end.

Definition literal_value (p : value) : value :=
  match get p "value" with
  | Ok v => v
  | Exc _ => VNone
  end.


(** The line a statement starts on. *)
Definition start_line (stmt : value) : result value :=
  match getitem stmt "loc" with
  | Ok l =>
      match getitem l "start" with
      | Ok s => getitem s "line"
      | Exc e => Exc e
      end
  | Exc e => Exc e
  end.


(** Two moments inside [declare].  [binding_built r rec]: the dict [r] has
    just been built and nothing refers to it.  [binding_pending r rec]: the
    membership test on [names] is done; either [r] was not appended because
    an equal dict is there already, or it was, and then no value assignment
    depends on [r] for its plain counterpart. *)
Definition binding_built (r : nat) (rec : name_rec) (self : AST) : Prop :=
  assignments_aliased self ∧ heap self !! r = Some rec ∧
  nr_value rec = None ∧ (r ∉ names self) ∧ (r ∉ assignments self).

Definition binding_pending (r : nat) (rec : name_rec) (self : AST) : Prop :=
  assignments_aliased self ∧ heap self !! r = Some rec ∧
  nr_value rec = None ∧ (r ∉ assignments self) ∧
  (((r ∉ names self) ∧ rec ∈ names_view self) ∨
   (r ∈ names self ∧
    ∀ a reca, a ∈ assignments self → heap self !! a = Some reca →
      a ∈ names self ∨
      ∃ r', r' ∈ names self ∧ r' ≠ r ∧ heap self !! r' = Some (plain reca))).

(** The node kinds the dispatcher has a handler for. *)
Definition handler_kinds : list pystr := statement_kinds ++ [py "Literal"].

(** The statements of the block that is the branch [k] of an [if]
    statement: none when the branch is absent or is not a block. *)
Definition branch_block (stmt : value) (k : pystr) : list value :=
  match getitem stmt k with
  | Ok branch =>
      match get branch "body" with
      | Ok (VList l) => l
      | _ => []
      end
  | Exc _ => []
  end.

(** The exceptions of a failed lookup, and a statement that raises nothing
    but exceptions in [E]. *)
Definition lookup_error (e : exn) : Prop :=
  (∃ k, e = KeyError k) ∨ e = TypeError ∨ e = AttributeError.

Definition raises_only {A} (E : exn → Prop) (m : M A) : Prop :=
  ∀ self e, (m self).1 = Raise e → E e.

(** [self'] holds everything [self] holds, in the same places: the
    collections of [self] are initial segments of those of [self'], a name
    dict may have gained a ['value'] but kept its name and scope, and the
    local candidates of [self] are still there. *)
Definition extends (self self' : AST) : Prop :=
  breakpoints self `prefix_of` breakpoints self' ∧
  names self `prefix_of` names self' ∧
  assignments self `prefix_of` assignments self' ∧
  (plain <$> heap self) `prefix_of` (plain <$> heap self') ∧
  shellcodes self ⊆ shellcodes self'.

(** [quiet m]: [m] returns, and leaves the tree and the breakpoints as
    they were. *)
Definition quiet {A} (m : M A) : Prop :=
  ∀ self, ∃ a,
    (m self).1 = Done a ∧ ast (m self).2 = ast self ∧
    breakpoints (m self).2 = breakpoints self.

(** [replays V m m']: run on the same tree, [m] and [m'] end the same way,
    with results related by [V]; [m] removes no breakpoint; and when the
    breakpoints [m] ends with are all held where [m'] starts, [m'] adds
    none. *)
Definition replays {A} (V : A → A → Prop) (m m' : M A) : Prop :=
  ∀ self self', ast self = ast self' →
    ast (m self).2 = ast (m' self').2 ∧
    match (m self).1, (m' self').1 with
    | Done a, Done a' => V a a'
    | Raise e, Raise e' => e = e'
    | OutOfFuel, OutOfFuel => True
    | _, _ => False
    end ∧
    breakpoints self ⊆ breakpoints (m self).2 ∧
    (breakpoints (m self).2 ⊆ breakpoints self' →
     breakpoints (m' self').2 = breakpoints self').

(** ** Running statements *)

Lemma bind_lift_Ok {A B} (a : A) (k : A → M B) : lift (Ok a) ≫= k = k a.
Proof. reflexivity. Qed.

Lemma bind_skip {B} (k : unit → M B) : skip ≫= k = k ().
Proof. reflexivity. Qed.

Lemma bind_modify {B} f (k : unit → M B) self :
  (modify f ≫= k) self = k () (f self).
Proof. reflexivity. Qed.

Lemma bind_Done {A B} (m : M A) (k : A → M B) self a self' :
  m self = (Done a, self') → (m ≫= k) self = k a self'.
Proof. unfold mbind, M_bind. intros ->. reflexivity. Qed.

Lemma getitem_contains v k x : getitem v k = Ok x → contains k v = Ok true.
Proof.
  destruct v; simpl; try discriminate.
  destruct (d !! k) eqn:E; [|discriminate]. intros _.
  rewrite bool_decide_eq_true_2; eauto.
Qed.

Lemma getitem_dict v k x : getitem v k = Ok x → ∃ d, v = VDict d ∧ d !! k = Some x.
Proof.
  destruct v; simpl; try discriminate.
  destruct (d !! k) eqn:E; [|discriminate]. intros [= <-]. eauto.
Qed.

(** ** The shellcode candidates *)

Lemma add_shellcode_short v :
  (∀ s, v = VStr s → length s < 32) → add_shellcode v = skip.
Proof.
  intros H. destruct v; try reflexivity. simpl.
  specialize (H s eq_refl). apply Nat.ltb_lt in H. by rewrite H.
Qed.

Lemma add_shellcode_long (s : pystr) self :
  32 ≤ length s →
  ∃ self', add_shellcode (VStr s) self = (Done (), self') ∧
    (forwarded s self self' ∨
     (¬ (∃ self'', forwarded s self self'') ∧ added_locally s self self')).
Proof.
  intros H. simpl. destruct (Nat.ltb_spec (length s) 32) as [|_]; [lia|].
  unfold try_except, registry_forward, forwarded, added_locally.
  destruct (ThugLogging self) as [r|] eqn:Er.
  - destruct (encode_latin1 s) as [b|] eqn:Eb.
    + destruct (registry_add r b) as [r'|] eqn:Ea.
      * eexists; split; [reflexivity|]. left. by exists r, b, r'.
      * eexists; split; [reflexivity|]. right. split; [|done].
        intros (? & ? & ? & ? & ? & ? & ? & ?). congruence.
    + eexists; split; [reflexivity|]. right. split; [|done].
      intros (? & ? & ? & ? & ? & ? & ? & ?). congruence.
  - eexists; split; [reflexivity|]. right. split; [|done].
    intros (? & ? & ? & ? & ? & ? & ? & ?). congruence.
Qed.

(** ** Rules for [triple] and [keeps] *)

Lemma triple_bind {A B} P Q R E (m : M A) (k : A → M B) :
  triple P m Q E → (∀ a, triple (Q a) (k a) R E) → triple P (m ≫= k) R E.
Proof.
  intros Hm Hk self HP. specialize (Hm self HP).
  unfold mbind, M_bind. destruct (m self) as [[a| |] self']; try done.
  by apply Hk.
Qed.

Lemma triple_weaken {A} (P P' : AST → Prop) (Q Q' : A → AST → Prop)
    (E E' : AST → Prop) (m : M A) :
  triple P' m Q' E' →
  (∀ self, P self → P' self) →
  (∀ a self, Q' a self → Q a self) →
  (∀ self, E' self → E self) →
  triple P m Q E.
Proof.
  intros Hm HP HQ HE self H. specialize (Hm self (HP self H)).
  destruct (m self) as [[a| |] self']; auto.
Qed.

Lemma triple_pure {A} (φ : Prop) P (m : M A) Q E :
  (φ → triple P m Q E) → triple (λ self, P self ∧ φ) m Q E.
Proof. intros H self [HP Hφ]. by apply H. Qed.

Lemma keeps_bind {A B} P (m : M A) (k : A → M B) :
  keeps P m → (∀ a, keeps P (k a)) → keeps P (m ≫= k).
Proof. intros Hm Hk. by apply triple_bind with (Q := λ _, P). Qed.

Lemma keeps_lift_bind {A B} P (r : result A) (k : A → M B) :
  (∀ a, r = Ok a → keeps P (k a)) → keeps P (lift r ≫= k).
Proof.
  intros Hk self HP. destruct r as [a|e]; [|done].
  rewrite bind_lift_Ok. by apply Hk.
Qed.

Lemma keeps_skip P : keeps P skip.
Proof. by intros self HP. Qed.

Lemma keeps_out_of_fuel P : keeps P out_of_fuel.
Proof. by intros self HP. Qed.

Lemma keeps_modify P f :
  (∀ self, P self → P (f self)) → keeps P (modify f).
Proof. intros Hf self HP. by apply Hf. Qed.

Lemma keeps_for_each P items body :
  (∀ item, item ∈ items → keeps P (body item)) →
  keeps P (for_each items body).
Proof.
  induction items as [|item rest IH]; intros H; [apply keeps_skip|].
  simpl. apply keeps_bind.
  - apply H. by left.
  - intros _. apply IH. intros x Hx. apply H. by right.
Qed.

Lemma keeps_set_breakpoint P stmt scope t :
  (∀ line self, P self → P (record_breakpoint (Breakpoint t line scope) self)) →
  keeps P (set_breakpoint stmt scope t).
Proof.
  intros H. unfold set_breakpoint.
  do 3 (apply keeps_lift_bind; intros ? _).
  apply keeps_modify. intros. by apply H.
Qed.

Ltac keeps_step :=
  lazymatch goal with
  | |- keeps _ skip => apply keeps_skip
  | |- keeps _ (lift _ ≫= _) => apply keeps_lift_bind; intros ? ?
  | |- keeps _ (if negb ?b then _ else _) => destruct b; simpl negb; cbv iota
  | |- keeps _ (if ?b then _ else _) => destruct b eqn:?
  | |- keeps _ (_ ≫= _) => apply keeps_bind; [|intros ?]
  end.

(** ** Which handler [getattr] finds *)

Lemma getattr_handle_Some dispatch t h :
  getattr_handle dispatch t = Some h →
  (t = VStr "AssignmentExpression" ∧ h = handleAssignmentExpression dispatch) ∨
  (t = VStr "CallExpression" ∧ h = handleCallExpression).
Proof.
  destruct t as [| |s| |]; simpl; try discriminate.
  repeat case_bool_decide; subst; intros [= <-]; auto.
Qed.

Lemma getattr_on_Some dispatch t h :
  getattr_on dispatch t = Some h →
  (t = VStr "ExpressionStatement" ∧ h = onExpressionStatement dispatch) ∨
  (t = VStr "VariableDeclaration" ∧ h = onVariableDeclaration) ∨
  (t = VStr "FunctionDeclaration" ∧ h = onFunctionDeclaration dispatch) ∨
  (t = VStr "IfStatement" ∧ h = onIfStatement dispatch) ∨
  (t = VStr "ForStatement" ∧ h = onForStatement) ∨
  (t = VStr "WhileStatement" ∧ h = onWhileStatement) ∨
  (t = VStr "DoWhileStatement" ∧ h = onDoWhileStatement) ∨
  (t = VStr "ForInStatement" ∧ h = onForInStatement) ∨
  (t = VStr "Literal" ∧ h = onLiteral) ∨
  (t = VStr "ReturnStatement" ∧ h = onReturnStatement).
Proof.
  destruct t as [| |s| |]; simpl; try discriminate.
  repeat case_bool_decide; subst; intros [= <-]; auto 12.
Qed.

(** ** Where values sit in a tree *)

Lemma getitem_child v k x : getitem v k = Ok x → child x v.
Proof. intros (d & -> & H)%getitem_dict. by econstructor. Qed.

Lemma get_child v k x : get v k = Ok x → x = VNone ∨ child x v.
Proof.
  destruct v; simpl; try discriminate. intros [= <-].
  destruct (d !! k) eqn:E; simpl; [right; by econstructor|by left].
Qed.

Lemma iter_child v items item :
  iter v = Ok items → item ∈ items → child item v ∨ ∃ s, item = VStr s.
Proof.
  destruct v; simpl; try discriminate; intros [= <-] H.
  - apply list_elem_of_fmap in H as (c & -> & _). eauto.
  - left. by constructor.
  - apply list_elem_of_fmap in H as (c & -> & _). eauto.
Qed.

Lemma is_function_name_child f v w :
  child v w → is_function_name f v → is_function_name f w.
Proof.
  intros Hc (decl & id & Hin & H). exists decl, id. split; [|done].
  eapply rtc_r; eauto.
Qed.

Lemma inside_atom v w :
  inside v w → (w = VNone ∨ (∃ z, w = VInt z) ∨ ∃ s, w = VStr s) → v = w.
Proof.
  intros H Hw. apply rtc_inv_r in H as [->|(u & _ & Hc)]; [done|].
  destruct Hw as [->|[[z ->]|[s ->]]]; inversion Hc.
Qed.

Lemma is_function_name_atom f w :
  (w = VNone ∨ (∃ z, w = VInt z) ∨ ∃ s, w = VStr s) → ¬ is_function_name f w.
Proof.
  intros Hw (decl & id & Hin & Ht & _). apply inside_atom in Hin as ->; [|done].
  destruct Hw as [->|[[z ->]|[s ->]]]; discriminate.
Qed.

(** ** A property kept by the whole walk

    [P] is a property of the analysis, [Sc] the scope labels it admits and
    [Re] says whether the walk may come back to the root of the tree (it
    does when a function declaration's statement list is [None]).  If the
    elementary updates keep [P], so does [_walk] with any budget, however
    it ends. *)
Section walk_keeps.
Variable P : AST → Prop.
Variable Sc : value → Prop.
Variable Re : Prop.

Hypothesis P_tree : ∀ self tree f,
  Re → P self → ast self = Some tree → is_function_name f tree → Sc f.
Hypothesis P_binding : ∀ n scope,
  Sc scope → keeps P (new_name n scope ≫= names_append_if_new).
Hypothesis P_breakpoint : ∀ t line scope self,
  Sc scope → P self → P (record_breakpoint (Breakpoint t line scope) self).
Hypothesis P_shellcode : ∀ v, keeps P (add_shellcode v).
Hypothesis P_declare : ∀ decl scope, Sc scope → keeps P (declare decl scope).

Collection updates := P_tree P_binding P_breakpoint P_shellcode P_declare.

#[local] Abbreviation covered := (admits Sc Re).

Lemma covered_getitem v k x : covered v → getitem v k = Ok x → covered x.
Proof using updates.
  intros Hv Hx f Hf. apply Hv.
  eapply is_function_name_child; [by eapply getitem_child|done].
Qed.

Lemma covered_get v k x : covered v → get v k = Ok x → covered x.
Proof using updates.
  intros Hv [->|Hx]%get_child f Hf.
  - exfalso. eapply is_function_name_atom; [|done]. by left.
  - apply Hv. by eapply is_function_name_child.
Qed.

Lemma covered_iter v items item :
  covered v → iter v = Ok items → item ∈ items → covered item.
Proof using updates.
  intros Hv Hi Hin f Hf.
  destruct (iter_child _ _ _ Hi Hin) as [Hc|[s ->]].
  - apply Hv. by eapply is_function_name_child.
  - exfalso. eapply is_function_name_atom; [|done]. eauto.
Qed.

Lemma keeps_onLiteral litr scope : keeps P (onLiteral litr scope).
Proof using P_shellcode.
  unfold onLiteral. repeat keeps_step; auto.
Qed.

Lemma keeps_onReturnStatement stmt scope :
  keeps P (onReturnStatement stmt scope).
Proof using P_shellcode.
  unfold onReturnStatement. repeat keeps_step; auto.
Qed.

Lemma keeps_onForStatement stmt scope :
  Sc scope → keeps P (onForStatement stmt scope).
Proof using updates. intros. apply keeps_set_breakpoint. auto. Qed.

Lemma keeps_onWhileStatement stmt scope :
  Sc scope → keeps P (onWhileStatement stmt scope).
Proof using updates. intros. apply keeps_set_breakpoint. auto. Qed.

Lemma keeps_onDoWhileStatement stmt scope :
  Sc scope → keeps P (onDoWhileStatement stmt scope).
Proof using updates. intros. apply keeps_set_breakpoint. auto. Qed.

Lemma keeps_onForInStatement stmt scope :
  Sc scope → keeps P (onForInStatement stmt scope).
Proof using updates. intros. apply keeps_set_breakpoint. auto. Qed.

Section handlers_keep.
Variable dispatch : value → value → M unit.
Hypothesis dispatch_keeps : ∀ item scope,
  Sc scope → covered item → keeps P (dispatch item scope).

Lemma keeps_for_each_dispatch body items scope :
  Sc scope → covered body → iter body = Ok items →
  keeps P (for_each items (λ item, dispatch item scope)).
Proof using updates dispatch_keeps.
  intros Hs Hc Hi. apply keeps_for_each. intros item Hin.
  apply dispatch_keeps; [done|]. by eapply covered_iter.
Qed.

Lemma keeps_walk_with body scope :
  Sc scope → covered body → (body = VNone → Re) →
  keeps P (walk_with dispatch body scope).
Proof using updates dispatch_keeps.
  intros Hs Hc Hre. unfold walk_with.
  apply triple_bind with (Q := λ b self, P self ∧ covered b).
  - case_bool_decide as Hb; [|by intros self HP].
    specialize (Hre Hb). intros self HP.
    unfold self_ast, mbind, M_bind, lift.
    destruct (ast self) as [tree|] eqn:Ea; [|done].
    destruct (getitem tree "body") as [b|e] eqn:Eb; [|done].
    split; [done|]. intros f Hf. split; [|done].
    eapply P_tree; eauto.
    eapply is_function_name_child; [by eapply getitem_child|done].
  - intros b. apply triple_pure. intros Hb.
    apply keeps_lift_bind. intros items Hi.
    by eapply keeps_for_each_dispatch.
Qed.

Lemma keeps_handleAssignmentExpression stmt scope :
  Sc scope → covered stmt →
  keeps P (handleAssignmentExpression dispatch stmt scope).
Proof using updates dispatch_keeps.
  intros Hs Hc. unfold handleAssignmentExpression.
  repeat first [by apply P_binding | keeps_step];
    eauto 6 using covered_getitem, keeps_set_breakpoint.
Qed.

Lemma keeps_handleCallExpression stmt scope :
  keeps P (handleCallExpression stmt scope).
Proof using P_shellcode.
  unfold handleCallExpression. repeat keeps_step.
  apply keeps_for_each. intros p _.
  repeat keeps_step; auto using keeps_onLiteral.
Qed.

Lemma keeps_onExpressionStatement stmt scope :
  Sc scope → covered stmt →
  keeps P (onExpressionStatement dispatch stmt scope).
Proof using updates dispatch_keeps.
  intros Hs Hc. unfold onExpressionStatement. repeat keeps_step.
  destruct (getattr_handle _ _) as [h|] eqn:Eh; [|apply keeps_skip].
  apply getattr_handle_Some in Eh as [[_ ->]|[_ ->]];
    auto using keeps_handleAssignmentExpression, keeps_handleCallExpression.
Qed.

Lemma keeps_onVariableDeclaration item scope :
  Sc scope → keeps P (onVariableDeclaration item scope).
Proof using updates dispatch_keeps.
  intros Hs. unfold onVariableDeclaration. repeat keeps_step.
  apply keeps_for_each. auto.
Qed.

Lemma keeps_onFunctionDeclaration decl scope :
  covered decl → getitem decl "type" = Ok (VStr "FunctionDeclaration") →
  keeps P (onFunctionDeclaration dispatch decl scope).
Proof using updates dispatch_keeps.
  intros Hc Ht. unfold onFunctionDeclaration.
  keeps_step. keeps_step; [|apply keeps_skip].
  apply keeps_lift_bind. intros id Hid.
  keeps_step. keeps_step; [|apply keeps_skip].
  apply keeps_lift_bind. intros func_name Hname.
  assert (Sc func_name ∧ Re) as [? ?].
  { apply Hc. exists decl, id. unfold inside. repeat split; done. }
  repeat keeps_step.
  apply keeps_walk_with; eauto using covered_getitem.
Qed.

Lemma keeps_onIfStatement stmt scope :
  Sc scope → covered stmt →
  keeps P (onIfStatement dispatch stmt scope).
Proof using updates dispatch_keeps.
  intros Hs Hc. unfold onIfStatement.
  repeat keeps_step;
    try (apply keeps_walk_with;
         [done|eauto using covered_getitem, covered_get
         |by intros ->]).
Qed.

Lemma keeps__walk_with item scope :
  Sc scope → covered item → keeps P (_walk_with dispatch item scope).
Proof using updates dispatch_keeps.
  intros Hs Hc. unfold _walk_with. apply keeps_lift_bind. intros t Ht.
  destruct (getattr_on _ _) as [h|] eqn:Eh; [|apply keeps_skip].
  apply getattr_on_Some in Eh.
  destruct Eh as [[_ ->]|[[_ ->]|[[-> ->]|[[_ ->]|[[_ ->]|[[_ ->]|
    [[_ ->]|[[_ ->]|[[_ ->]|[_ ->]]]]]]]]]];
    auto using keeps_onExpressionStatement, keeps_onVariableDeclaration,
      keeps_onFunctionDeclaration, keeps_onIfStatement,
      keeps_onForStatement, keeps_onWhileStatement,
      keeps_onDoWhileStatement, keeps_onForInStatement, keeps_onLiteral,
      keeps_onReturnStatement.
Qed.
End handlers_keep.

Lemma keeps__walk fuel item scope :
  Sc scope → covered item → keeps P (_walk fuel item scope).
Proof using updates.
  revert item scope. induction fuel as [|fuel IH]; intros item scope Hs Hc.
  - apply keeps_out_of_fuel.
  - simpl. by apply keeps__walk_with.
Qed.

Lemma keeps_walk fuel body scope :
  Sc scope → covered body → (body = VNone → Re) →
  keeps P (walk fuel body scope).
Proof using updates.
  intros. apply keeps_walk_with; auto. intros. by apply keeps__walk.
Qed.
End walk_keeps.

(** ** Scope labels *)

Lemma elem_of_names_view self x :
  x ∈ names_view self ↔ ∃ r, r ∈ names self ∧ heap self !! r = Some x.
Proof. unfold names_view. by rewrite list_elem_of_omap. Qed.

Lemma elem_of_assignments_view self x :
  x ∈ assignments_view self ↔
  ∃ r, r ∈ assignments self ∧ heap self !! r = Some x.
Proof. unfold assignments_view. by rewrite list_elem_of_omap. Qed.


Section labels.
Variable tree : option value.
Variable Sc : value → Prop.









End labels.

(** ** Searching a concrete tree *)

Lemma child_children u v : child u v → u ∈ children v.
Proof.
  intros [x l H|x d k H]; simpl; [done|].
  apply list_elem_of_fmap. exists (k, x). split; [done|].
  by apply elem_of_map_to_list.
Qed.

Lemma descendants_self n v : v ∈ descendants n v.
Proof. destruct n; by left. Qed.

Lemma inside_descendants n : ∀ u v,
  height_le n v = true → inside u v → u ∈ descendants n v.
Proof.
  induction n as [|n IH]; intros u v Hh Hin;
    apply rtc_inv_r in Hin as [->|(w & Hin & Hc%child_children)];
    try apply descendants_self.
  - simpl in Hh. apply bool_decide_eq_true in Hh. rewrite Hh in Hc.
    by apply elem_of_nil in Hc.
  - simpl in *. right. apply list_elem_of_In, in_concat.
    exists (descendants n w). split.
    + apply list_elem_of_In, list_elem_of_fmap. eauto.
    + apply list_elem_of_In, IH; [|done].
      rewrite forallb_forall in Hh. by apply Hh, list_elem_of_In.
Qed.


(** ** C1: the scope label of a walk *)



(** ** C10: value assignments and the bindings they alias *)

Lemma names_view_ext self self' :
  heap self' = heap self → names self' = names self →
  names_view self' = names_view self.
Proof. unfold names_view. by intros -> ->. Qed.

Lemma assignments_aliased_ext self self' :
  heap self' = heap self → names self' = names self →
  assignments self' = assignments self →
  assignments_aliased self → assignments_aliased self'.
Proof.
  unfold assignments_aliased, refs_valid, names_view.
  by intros -> -> ->.
Qed.

Lemma binding_pending_ext r rec self self' :
  heap self' = heap self → names self' = names self →
  assignments self' = assignments self →
  binding_pending r rec self → binding_pending r rec self'.
Proof.
  unfold binding_pending, assignments_aliased, refs_valid, names_view.
  by intros -> -> ->.
Qed.

Lemma record_breakpoint_findings bp self :
  heap (record_breakpoint bp self) = heap self ∧
  names (record_breakpoint bp self) = names self ∧
  assignments (record_breakpoint bp self) = assignments self.
Proof. unfold record_breakpoint. by case_bool_decide. Qed.

Lemma add_shellcode_findings v self :
  ∃ self', add_shellcode v self = (Done (), self') ∧
    findings self' = findings self ∧ ast self' = ast self.
Proof.
  destruct v; try by eexists. simpl.
  destruct (length s <? 32); [by eexists|].
  unfold try_except, registry_forward.
  destruct (ThugLogging self); [|by eexists].
  destruct (encode_latin1 s); [|by eexists].
  destruct (registry_add _ _); by eexists.
Qed.

Lemma aliased_new_name n scope :
  triple assignments_aliased (new_name n scope)
    (λ r, binding_built r (NameRec n scope None)) assignments_aliased.
Proof.
  intros self [[Hn Ha] Hal].
  unfold new_name, binding_built, assignments_aliased, refs_valid. simpl.
  repeat split.
  - intros r Hr. rewrite length_app. specialize (Hn r Hr). simpl. lia.
  - intros r Hr. rewrite length_app. specialize (Ha r Hr). simpl. lia.
  - intros a Hin. destruct (Hal a Hin) as (rec & Hl & Hv & Hor).
    exists rec. split; [by apply lookup_app_l_Some|]. split; [done|].
    destruct Hor as [?|Hp]; [by left|right].
    apply elem_of_names_view in Hp as (r' & ? & ?).
    apply elem_of_names_view. exists r'. split; [done|].
    by apply lookup_app_l_Some.
  - by rewrite list_lookup_middle.
  - intros Hr%Hn. lia.
  - intros Hr%Ha. lia.
Qed.

Lemma aliased_names_append r rec :
  triple (binding_built r rec) (names_append_if_new r)
    (λ _, binding_pending r rec) assignments_aliased.
Proof.
  intros self ([[Hn Ha] Hal] & Hr & Hv & Hrn & Hra).
  unfold names_append_if_new. rewrite Hr.
  case_bool_decide as Hin.
  - repeat split; auto.
  - assert (∀ x, x ∈ names_view self →
      x ∈ names_view (with_names (λ l, l ++ [r]) self)) as Hmono.
    { intros x (r' & ? & ?)%elem_of_names_view. apply elem_of_names_view.
      exists r'. simpl. rewrite elem_of_app. auto. }
    unfold binding_pending, assignments_aliased, refs_valid. simpl.
    repeat split; auto.
    + intros r' [?|Hx%list_elem_of_singleton]%elem_of_app; [auto|].
      subst r'. by eapply lookup_lt_Some.
    + intros a Hin'. destruct (Hal a Hin') as (reca & ? & ? & Hor).
      exists reca. rewrite elem_of_app.
      repeat split; [done|done|]. destruct Hor; auto.
    + right. split; [rewrite elem_of_app, list_elem_of_singleton; auto|].
      intros a reca Hin' Hl. destruct (Hal a Hin') as (reca' & ? & _ & Hor).
      assert (reca' = reca) as -> by congruence.
      destruct Hor as [?|(r' & ? & ?)%elem_of_names_view].
      * left. rewrite elem_of_app. auto.
      * right. exists r'. rewrite elem_of_app.
        repeat split; [by left| |done]. by intros ->.
Qed.

Lemma plain_of_plain rec : nr_value rec = None → plain rec = rec.
Proof. destruct rec as [n s v]. simpl. by intros ->. Qed.

Lemma aliased_set_value r rec raw :
  triple (binding_pending r rec)
    (set_value r raw ≫= λ _, assignments_append_if_new r)
    (λ _, assignments_aliased) assignments_aliased.
Proof.
  intros self ([[Hn Ha] Hal] & Hr & Hv & Hra & Hcase).
  unfold set_value. rewrite bind_modify.
  unfold assignments_append_if_new. simpl. rewrite Hr.
  assert (r < length (heap self)) as Hlt by by eapply lookup_lt_Some.
  rewrite list_lookup_insert_eq by done.
  set (recv := NameRec (nr_name rec) (nr_scope rec) (Some raw)).
  remember (with_heap _ self) as self2 eqn:Hs2.
  assert (heap self2 = <[r := recv]> (heap self)) as Hh2.
  { rewrite Hs2. simpl. by rewrite Hr. }
  assert (names self2 = names self) as Hn2 by by rewrite Hs2.
  assert (assignments self2 = assignments self) as Ha2 by by rewrite Hs2.
  clear Hs2.
  assert (∀ a, a ≠ r → heap self2 !! a = heap self !! a) as Hother.
  { intros a Hne. rewrite Hh2. by apply list_lookup_insert_ne. }
  assert (assignments_aliased self2) as Hal2.
  { unfold assignments_aliased, refs_valid.
    rewrite Hh2, Hn2, Ha2, length_insert.
    split; [done|]. intros a Hin.
    assert (a ≠ r) as Hne by (by intros ->).
    destruct (Hal a Hin) as (reca & Hl & Hva & Hor).
    exists reca. rewrite list_lookup_insert_ne by done.
    split; [done|]. split; [done|].
    destruct Hcase as [[Hrn Hrec]|[Hrn Hwit]].
    - destruct Hor as [?|(r' & ? & ?)%elem_of_names_view]; [by left|right].
      apply elem_of_names_view. exists r'. rewrite Hn2. split; [done|].
      rewrite Hother; [done|by intros ->].
    - destruct (Hwit a reca Hin Hl) as [?|(r' & ? & ? & ?)]; [by left|right].
      apply elem_of_names_view. exists r'. rewrite Hn2. split; [done|].
      by rewrite Hother. }
  case_bool_decide as Hin; [done|].
  destruct Hal2 as [[Hv2 Hw2] Hal2].
  unfold assignments_aliased, refs_valid. simpl.
  split; [split; [done|]|].
  - intros a [?|Hx%list_elem_of_singleton]%elem_of_app; [auto|].
    subst a. by rewrite Hh2, length_insert.
  - intros a [Hin'|Hx%list_elem_of_singleton]%elem_of_app.
    + destruct (Hal2 a Hin') as (reca & ? & ? & Hor). by exists reca.
    + subst a. exists recv.
      split; [by rewrite Hh2, list_lookup_insert_eq|]. split; [by eexists|].
      rewrite Hn2.
      destruct Hcase as [[Hrn Hrec]|[Hrn _]]; [right|by left].
      change (plain recv) with (plain rec). rewrite plain_of_plain by done.
      apply elem_of_names_view in Hrec as (r' & ? & ?).
      apply elem_of_names_view. exists r'. simpl. rewrite Hn2.
      split; [done|]. rewrite Hother; [done|by intros ->].
Qed.

Lemma binding_pending_aliased r rec self :
  binding_pending r rec self → assignments_aliased self.
Proof. by intros [? _]. Qed.

Lemma aliased_binding n scope :
  keeps assignments_aliased (new_name n scope ≫= names_append_if_new).
Proof.
  eapply triple_bind; [apply aliased_new_name|]. intros r.
  eapply triple_weaken; [apply aliased_names_append|done| |done].
  intros ? self. apply binding_pending_aliased.
Qed.

Lemma aliased_record_breakpoint bp self :
  assignments_aliased self → assignments_aliased (record_breakpoint bp self).
Proof.
  destruct (record_breakpoint_findings bp self) as (? & ? & ?).
  by apply assignments_aliased_ext.
Qed.

Lemma pending_set_breakpoint r rec stmt scope t :
  triple (binding_pending r rec) (set_breakpoint stmt scope t)
    (λ _, binding_pending r rec) assignments_aliased.
Proof.
  intros self Hp. unfold set_breakpoint, mbind, M_bind, lift.
  destruct (getitem stmt "loc") as [l|]; [|by apply Hp].
  destruct (getitem l "end") as [e|]; [|by apply Hp].
  destruct (getitem e "line") as [line|]; [|by apply Hp].
  simpl.
  destruct (record_breakpoint_findings (Breakpoint t line scope) self)
    as (? & ? & ?).
  by eapply binding_pending_ext.
Qed.

Lemma aliased_add_shellcode v : keeps assignments_aliased (add_shellcode v).
Proof.
  intros self H.
  destruct (add_shellcode_findings v self) as (self' & -> & [= ? ? ? ?] & _).
  by eapply assignments_aliased_ext.
Qed.

Lemma triple_lift_bind {A B} P (r : result A) (k : A → M B) Q E :
  (∀ self, P self → E self) →
  (∀ a, r = Ok a → triple P (k a) Q E) → triple P (lift r ≫= k) Q E.
Proof.
  intros HE Hk self HP. destruct r as [a|e]; [|by apply HE].
  rewrite bind_lift_Ok. by apply Hk.
Qed.

Lemma triple_skip P (Q : unit → AST → Prop) E :
  (∀ self, P self → Q () self) → triple P skip Q E.
Proof. intros H self HP. by apply H. Qed.

Lemma aliased_declare decl scope :
  keeps assignments_aliased (declare decl scope).
Proof.
  unfold declare.
  keeps_step. keeps_step; [|apply keeps_skip].
  keeps_step. keeps_step; [|apply keeps_skip].
  keeps_step. keeps_step.
  eapply triple_bind; [apply aliased_new_name|]. intros r.
  eapply triple_bind; [apply aliased_names_append|]. intros [].
  apply triple_lift_bind; [apply binding_pending_aliased|]. intros b _.
  destruct b; [|apply triple_skip, binding_pending_aliased].
  eapply triple_bind; [apply pending_set_breakpoint|]. intros [].
  apply triple_lift_bind; [apply binding_pending_aliased|]. intros init _.
  apply triple_lift_bind; [apply binding_pending_aliased|]. intros b _.
  destruct b; [|apply triple_skip, binding_pending_aliased].
  apply triple_lift_bind; [apply binding_pending_aliased|]. intros raw _.
  apply aliased_set_value.
Qed.

Lemma aliased__walk fuel item scope :
  keeps assignments_aliased (_walk fuel item scope).
Proof.
  apply keeps__walk with (Sc := λ _, True) (Re := True); try done.
  - intros. apply aliased_binding.
  - intros. by apply aliased_record_breakpoint.
  - apply aliased_add_shellcode.
  - intros. apply aliased_declare.
Qed.

Lemma aliased_walk fuel body scope :
  keeps assignments_aliased (walk fuel body scope).
Proof.
  apply keeps_walk with (Sc := λ _, True) (Re := True); try done.
  - intros. apply aliased_binding.
  - intros. by apply aliased_record_breakpoint.
  - apply aliased_add_shellcode.
  - intros. apply aliased_declare.
Qed.

Lemma init_state_aliased window tl : assignments_aliased (init_state window tl).
Proof.
  split; [split|]; intros r Hr; by apply elem_of_nil in Hr.
Qed.

Lemma aliased_views self rec :
  assignments_aliased self → rec ∈ assignments_view self →
  is_Some (nr_value rec) ∧
  (rec ∈ names_view self ∨ plain rec ∈ names_view self).
Proof.
  intros [_ Hal] (a & Hin & Hl)%elem_of_assignments_view.
  destruct (Hal a Hin) as (rec' & Hl' & Hv & Hor).
  assert (rec' = rec) as -> by congruence. split; [done|].
  destruct Hor as [?|?]; [left|by right].
  apply elem_of_names_view. eauto.
Qed.

(** C10, as amended.  A value assignment is a dict with a ['value'], and
    it is related to the bindings in one of two ways: it is the very dict
    that [names] holds (the declarator's own binding, mutated in place, so
    the binding reads as a triple), or [names] holds an equal dict without
    the ['value'] that was recorded earlier, and then the value assignment
    is not an element of the bindings.  This holds of every analysis the
    constructor leaves, and a further [walk] keeps it. *)
Theorem value_assignment_aliases_binding fuel script window tl n body scope
    self :
  (assignments_aliased (__init__ fuel script window tl).2 ∧
   ∀ rec, rec ∈ assignments_view (__init__ fuel script window tl).2 →
     is_Some (nr_value rec) ∧
     (rec ∈ names_view (__init__ fuel script window tl).2 ∨
      plain rec ∈ names_view (__init__ fuel script window tl).2)) ∧
  (assignments_aliased self →
   assignments_aliased (walk n body scope self).2 ∧
   ∀ rec, rec ∈ assignments_view (walk n body scope self).2 →
     is_Some (nr_value rec) ∧
     (rec ∈ names_view (walk n body scope self).2 ∨
      plain rec ∈ names_view (walk n body scope self).2)).
Proof.
  assert (∀ n body scope self, assignments_aliased self →
    assignments_aliased (walk n body scope self).2) as Hwalk.
  { intros n' body' scope' self' H.
    pose proof (aliased_walk n' body' scope' self' H) as Hw.
    by destruct (walk _ _ _ _) as [[[]| |] ?]. }
  assert (assignments_aliased (__init__ fuel script window tl).2) as Hinit.
  { unfold __init__. destruct (esprima_parse script) as [tree|].
    - apply Hwalk.
      apply (assignments_aliased_ext (init_state window tl));
        [done..|apply init_state_aliased].
    - apply init_state_aliased. }
  split; [split; [done|]|].
  - intros rec. by apply aliased_views.
  - intros H. split; [by apply Hwalk|].
    intros rec. by apply aliased_views, Hwalk.
Qed.

(** ** C8: a script that does not parse *)

(** C8.  When the parser raises, the constructor returns normally and the
    object keeps the empty collections it started with. *)
Theorem parse_failure_leaves_empty_analysis fuel script window tl :
  esprima_parse script = None →
  __init__ fuel script window tl = (Done (), init_state window tl) ∧
  names_view (init_state window tl) = [] ∧
  assignments_view (init_state window tl) = [] ∧
  breakpoints (init_state window tl) = [] ∧
  shellcodes (init_state window tl) = ∅.
Proof. intros Hp. unfold __init__. by rewrite Hp. Qed.

(** ** C2: where a candidate goes *)

(** C2, as amended.  A candidate of at least 32 characters is never
    dropped, but it goes to one place only: when a registry is installed,
    the value has a single-byte form and the registry's [add] returns, the
    single-byte form is forwarded and the local set is left as it was;
    in every other case (no registry, no single-byte form, or an [add]
    that raises) the value is added to the local set in its original
    form. *)
Theorem shellcode_candidate_goes_to_one_store (s : pystr) self :
  32 ≤ length s →
  (∀ r b r', ThugLogging self = Some r → encode_latin1 s = Some b →
     registry_add r b = Some r' →
     add_shellcode (VStr s) self = (Done (), with_ThugLogging r' self)) ∧
  (ThugLogging self = None ∨ encode_latin1 s = None ∨
   (∃ r b, ThugLogging self = Some r ∧ encode_latin1 s = Some b ∧
      registry_add r b = None) →
   add_shellcode (VStr s) self
   = (Done (), with_shellcodes (λ S, {[s]} ∪ S) self) ∧
   s ∈ shellcodes (with_shellcodes (λ S, {[s]} ∪ S) self)).
Proof.
  intros Hlen. simpl.
  destruct (Nat.ltb_spec (length s) 32) as [|_]; [lia|].
  unfold try_except, registry_forward. split.
  - intros r b r' -> -> ->. reflexivity.
  - intros H. split; [|by apply elem_of_union_l, elem_of_singleton].
    destruct H as [->|[Hb|(r & b & -> & -> & ->)]]; [done| |done].
    destruct (ThugLogging self); [|done]. by rewrite Hb.
Qed.

(** ** C5: loops *)

Lemma getattr_on_loop dispatch kind :
  kind ∈ loop_kinds →
  ∃ h, getattr_on dispatch (VStr kind) = Some h ∧
    ∀ stmt scope, h stmt scope = set_breakpoint stmt scope LOOP_BREAKPOINT.
Proof.
  unfold loop_kinds. rewrite !elem_of_cons, elem_of_nil.
  intros [->|[->|[->|[->|[]]]]]; eexists; split; reflexivity || done.
Qed.

Lemma record_breakpoint_elem bp self :
  bp ∈ breakpoints (record_breakpoint bp self).
Proof.
  unfold record_breakpoint. case_bool_decide; [done|]. simpl.
  apply elem_of_app. right. by left.
Qed.

Lemma record_breakpoint_NoDup bp self :
  NoDup (breakpoints self) → NoDup (breakpoints (record_breakpoint bp self)).
Proof.
  intros H. unfold record_breakpoint. case_bool_decide as Hin; [done|].
  simpl. apply NoDup_app. split; [done|]. split.
  - intros x Hx ->%list_elem_of_singleton. done.
  - apply NoDup_singleton.
Qed.

Lemma set_breakpoint_run stmt scope t l e line self :
  getitem stmt "loc" = Ok l → getitem l "end" = Ok e →
  getitem e "line" = Ok line →
  set_breakpoint stmt scope t self
  = (Done (), record_breakpoint (Breakpoint t line scope) self).
Proof.
  intros H1 H2 H3. unfold set_breakpoint.
  by rewrite H1, bind_lift_Ok, H2, bind_lift_Ok, H3, bind_lift_Ok.
Qed.

(** C5, as amended.  A [for], [while], [do-while] or [for-in] statement
    visited by the dispatcher records the LoopPoint breakpoint of the line
    the statement ends on (its ['loc']['end']['line'], not the line of its
    header), under the current scope: the breakpoint is appended when it is
    not there yet, and nothing else of the analysis changes, whatever the
    loop's body holds.  Afterwards the breakpoints hold it, and hold it
    once when they had no duplicates before. *)
Theorem loop_records_its_end_line n kind stmt scope l e line self :
  kind ∈ loop_kinds →
  getitem stmt "type" = Ok (VStr kind) →
  getitem stmt "loc" = Ok l → getitem l "end" = Ok e →
  getitem e "line" = Ok line →
  _walk (S n) stmt scope self
  = (Done (), record_breakpoint (Breakpoint LOOP_BREAKPOINT line scope) self) ∧
  (Breakpoint LOOP_BREAKPOINT line scope ∉ breakpoints self →
   record_breakpoint (Breakpoint LOOP_BREAKPOINT line scope) self
   = with_breakpoints
       (λ bps, bps ++ [Breakpoint LOOP_BREAKPOINT line scope]) self) ∧
  (Breakpoint LOOP_BREAKPOINT line scope ∈ breakpoints self →
   record_breakpoint (Breakpoint LOOP_BREAKPOINT line scope) self = self) ∧
  Breakpoint LOOP_BREAKPOINT line scope
  ∈ breakpoints
      (record_breakpoint (Breakpoint LOOP_BREAKPOINT line scope) self) ∧
  (NoDup (breakpoints self) →
   NoDup
     (breakpoints
        (record_breakpoint (Breakpoint LOOP_BREAKPOINT line scope) self))).
Proof.
  intros Hk Ht H1 H2 H3. split; [|split; [|split; [|split]]].
  - simpl. unfold _walk_with. rewrite Ht, bind_lift_Ok.
    destruct (getattr_on_loop (_walk n) kind Hk) as (h & -> & Hh).
    rewrite Hh. by eapply set_breakpoint_run.
  - intros H. unfold record_breakpoint. by rewrite bool_decide_eq_false_2.
  - intros H. unfold record_breakpoint. by rewrite bool_decide_eq_true_2.
  - apply record_breakpoint_elem.
  - apply record_breakpoint_NoDup.
Qed.

(** ** Walking an expression node *)

Lemma findings_add_shellcode F v :
  keeps (λ self, findings self = F) (add_shellcode v).
Proof.
  intros self H.
  destruct (add_shellcode_findings v self) as (self' & -> & ? & _).
  congruence.
Qed.

Lemma add_shellcode_falsy v : truthy v = false → add_shellcode v = skip.
Proof.
  destruct v as [| |s| |]; try done. simpl.
  intros ->%negb_false_iff%bool_decide_eq_true. done.
Qed.

Lemma getitem_truthy v k x : getitem v k = Ok x → truthy v = true.
Proof.
  intros (d & -> & H)%getitem_dict. simpl. apply negb_true_iff.
  apply bool_decide_eq_false. intros ->. by rewrite lookup_empty in H.
Qed.

Lemma onLiteral_run p scope t :
  getitem p "type" = Ok t →
  onLiteral p scope = add_shellcode (literal_value p).
Proof.
  intros Ht. unfold onLiteral, literal_value.
  rewrite (getitem_truthy _ _ _ Ht). simpl negb. cbv iota.
  apply getitem_dict in Ht as (d & -> & _). simpl. rewrite bind_lift_Ok.
  destruct (truthy _) eqn:E; [done|]. by rewrite add_shellcode_falsy.
Qed.

Lemma getattr_on_expression dispatch t :
  t ∉ statement_kinds →
  getattr_on dispatch (VStr t) = None ∨
  getattr_on dispatch (VStr t) = Some onLiteral.
Proof.
  intros Hn. destruct (getattr_on dispatch (VStr t)) as [h|] eqn:E; [|by left].
  right. f_equal. apply getattr_on_Some in E.
  unfold statement_kinds in Hn. rewrite !not_elem_of_cons in Hn.
  destruct Hn as (? & ? & ? & ? & ? & ? & ? & ? & ? & _).
  destruct E as [[[= ->] _]|[[[= ->] _]|[[[= ->] _]|[[[= ->] _]|[[[= ->] _]|
    [[[= ->] _]|[[[= ->] _]|[[[= ->] _]|[[_ ->]|[[= ->] _]]]]]]]]]]; done.
Qed.

Lemma walk_expression n v scope self :
  is_expression v →
  ∃ self', _walk (S n) v scope self = (Done (), self') ∧
    findings self' = findings self ∧ ast self' = ast self.
Proof.
  intros (t & Ht & Hn). simpl. unfold _walk_with.
  rewrite Ht, bind_lift_Ok.
  destruct (getattr_on_expression (_walk n) t Hn) as [-> | ->];
    [by eexists|].
  rewrite (onLiteral_run _ _ _ Ht). apply add_shellcode_findings.
Qed.

(** ** C7: the operator filter *)

Lemma unrecognized_operator_keeps F dispatch stmt scope :
  (∀ e op, getitem stmt "expression" = Ok e → getitem e "operator" = Ok op →
     op ∉ ASSIGN_OPERATORS) →
  keeps (λ self, findings self = F) (onExpressionStatement dispatch stmt scope).
Proof.
  intros Hop. unfold onExpressionStatement.
  keeps_step. keeps_step; [|apply keeps_skip].
  apply keeps_lift_bind. intros e He.
  keeps_step. keeps_step; [|apply keeps_skip]. keeps_step.
  destruct (getattr_handle _ _) as [h|] eqn:Eh; [|apply keeps_skip].
  apply getattr_handle_Some in Eh as [[_ ->]|[_ ->]].
  - unfold handleAssignmentExpression.
    keeps_step. keeps_step; [|apply keeps_skip].
    rewrite He, bind_lift_Ok.
    keeps_step. keeps_step; [|apply keeps_skip].
    apply keeps_lift_bind. intros op Hoperator.
    rewrite bool_decide_eq_false_2 by eauto. apply keeps_skip.
  - apply keeps_handleCallExpression, findings_add_shellcode.
Qed.

Lemma omap_lookup_app (h ext : list name_rec) (l : list nat) :
  (∀ r, r ∈ l → r < length h) →
  omap (λ r, (h ++ ext) !! r) l = omap (λ r, h !! r) l.
Proof.
  induction l as [|r l IH]; intros H; [done|].
  change (omap (λ r, (h ++ ext) !! r) (r :: l))
    with (match (h ++ ext) !! r with
          | Some y => y :: omap (λ r, (h ++ ext) !! r) l
          | None => omap (λ r, (h ++ ext) !! r) l
          end).
  rewrite lookup_app_l by (apply H; by left).
  rewrite IH; [done|]. intros r' Hr'. apply H. by right.
Qed.

Lemma findings_views self self' :
  findings self' = findings self →
  names_view self' = names_view self ∧
  assignments_view self' = assignments_view self ∧
  breakpoints self' = breakpoints self ∧
  (refs_valid self → refs_valid self').
Proof.
  unfold findings, names_view, assignments_view, refs_valid.
  by intros [= -> -> -> ->].
Qed.


Lemma binding_records x scope self self1 :
  (new_name x scope ≫= names_append_if_new) self = (Done (), self1) →
  NameRec x scope None ∈ names_view self1.
Proof.
  unfold new_name, mbind, M_bind, names_append_if_new.
  simpl. rewrite list_lookup_middle by done.
  case_bool_decide as Hin; intros [= <-]; [done|].
  apply elem_of_names_view. exists (length (heap self)). simpl.
  split; [apply elem_of_app; right; by left|].
  by rewrite list_lookup_middle.
Qed.

Lemma binding_done x scope self :
  ∃ self1,
    (new_name x scope ≫= names_append_if_new) self = (Done (), self1) ∧
    breakpoints self1 = breakpoints self.
Proof.
  unfold new_name, mbind, M_bind, names_append_if_new.
  simpl. rewrite list_lookup_middle by done.
  case_bool_decide; by eexists.
Qed.

Lemma record_breakpoint_same bp self self' :
  breakpoints self' = breakpoints self →
  breakpoints (record_breakpoint bp self')
  = breakpoints (record_breakpoint bp self).
Proof.
  intros H. unfold record_breakpoint. rewrite H.
  case_bool_decide; [done|]. simpl. by rewrite H.
Qed.

(** The assignment handler, step by step, on a statement whose operator is
    recognized. *)
Lemma handleAssignmentExpression_unfold n stmt scope e op left right self :
  getitem stmt "type" = Ok (VStr "ExpressionStatement") →
  getitem stmt "expression" = Ok e →
  getitem e "type" = Ok (VStr "AssignmentExpression") →
  getitem e "operator" = Ok op → op ∈ ASSIGN_OPERATORS →
  getitem e "left" = Ok left → is_expression left →
  getitem e "right" = Ok right →
  _walk (S (S n)) stmt scope self
  = ((match getitem left "name" with
      | Ok x => new_name x scope ≫= names_append_if_new
      | Exc _ => skip
      end);;
     _walk (S n) left scope;;
     _walk (S n) right scope;;
     set_breakpoint stmt scope ASSIGN_BREAKPOINT) self.
Proof.
  intros Ht He Het Hop Hin Hl Hle Hr.
  change (_walk (S (S n)) stmt scope) with (_walk_with (_walk (S n)) stmt scope).
  unfold _walk_with. rewrite Ht, bind_lift_Ok.
  change (getattr_on (_walk (S n)) (VStr "ExpressionStatement"))
    with (Some (onExpressionStatement (_walk (S n)))).
  unfold onExpressionStatement.
  rewrite (getitem_contains _ _ _ He), bind_lift_Ok. cbn [negb].
  rewrite He, bind_lift_Ok.
  rewrite (getitem_contains _ _ _ Het), bind_lift_Ok. cbn [negb].
  rewrite Het, bind_lift_Ok.
  change (getattr_handle (_walk (S n)) (VStr "AssignmentExpression"))
    with (Some (handleAssignmentExpression (_walk (S n)))).
  unfold handleAssignmentExpression.
  rewrite (getitem_contains _ _ _ He), bind_lift_Ok. cbn [negb].
  rewrite He, bind_lift_Ok.
  rewrite (getitem_contains _ _ _ Hop), bind_lift_Ok. cbn [negb].
  rewrite Hop, bind_lift_Ok.
  rewrite bool_decide_eq_true_2 by done. cbn [negb].
  rewrite Hl, bind_lift_Ok.
  destruct Hle as (t & (d & -> & Hd)%getitem_dict & _).
  change (contains "name" (VDict d))
    with (Ok (bool_decide (is_Some (d !! py "name")))).
  rewrite bind_lift_Ok, Hr.
  change (getitem (VDict d) "name")
    with (match d !! py "name" with
          | Some x => Ok x
          | None => Exc (KeyError "name")
          end).
  destruct (d !! py "name") as [x|] eqn:Ex.
  - rewrite bool_decide_eq_true_2 by eauto. by rewrite !bind_lift_Ok.
  - rewrite bool_decide_eq_false_2; [|by intros [? ?]].
    by rewrite !bind_lift_Ok.
Qed.

Lemma assignment_run n stmt scope e op left right l en line self :
  getitem stmt "type" = Ok (VStr "ExpressionStatement") →
  getitem stmt "expression" = Ok e →
  getitem e "type" = Ok (VStr "AssignmentExpression") →
  getitem e "operator" = Ok op → op ∈ ASSIGN_OPERATORS →
  getitem e "left" = Ok left → is_expression left →
  getitem e "right" = Ok right → is_expression right →
  getitem stmt "loc" = Ok l → getitem l "end" = Ok en →
  getitem en "line" = Ok line →
  ∃ self1 self',
    (match getitem left "name" with
     | Ok x => new_name x scope ≫= names_append_if_new
     | Exc _ => skip
     end) self = (Done (), self1) ∧
    _walk (S (S n)) stmt scope self = (Done (), self') ∧
    names_view self' = names_view self1 ∧
    assignments_view self' = assignments_view self1 ∧
    (refs_valid self1 → refs_valid self') ∧
    breakpoints self'
    = breakpoints
        (record_breakpoint (Breakpoint ASSIGN_BREAKPOINT line scope) self).
Proof.
  intros Ht He Het Hop Hin Hl Hle Hr Hre H1 H2 H3.
  rewrite (handleAssignmentExpression_unfold n stmt scope e op left right)
    by done.
  assert (∃ self1,
    (match getitem left "name" with
     | Ok x => new_name x scope ≫= names_append_if_new
     | Exc _ => skip
     end) self = (Done (), self1) ∧ breakpoints self1 = breakpoints self)
    as (self1 & Hb & Hbp1).
  { destruct (getitem left "name"); [apply binding_done|by eexists]. }
  destruct (walk_expression n left scope self1 Hle) as (self2 & Hw2 & Hf2 & _).
  destruct (walk_expression n right scope self2 Hre) as (self3 & Hw3 & Hf3 & _).
  exists self1. eexists. split; [done|].
  rewrite (bind_Done _ _ _ _ _ Hb), (bind_Done _ _ _ _ _ Hw2).
  rewrite (bind_Done _ _ _ _ _ Hw3).
  rewrite (set_breakpoint_run _ _ _ _ _ _ _ H1 H2 H3).
  split; [done|].
  apply findings_views in Hf2 as (Hn2 & Ha2 & Hb2 & Hv2).
  apply findings_views in Hf3 as (Hn3 & Ha3 & Hb3 & Hv3).
  pose proof (record_breakpoint_findings
    (Breakpoint ASSIGN_BREAKPOINT line scope) self3) as (Hh & Hn & Ha).
  split; [|split; [|split]].
  - rewrite <- Hn2, <- Hn3. by apply names_view_ext.
  - rewrite <- Ha2, <- Ha3. unfold assignments_view. by rewrite Hh, Ha.
  - intros [? ?]%Hv2%Hv3. unfold refs_valid. by rewrite Hh, Hn, Ha.
  - apply record_breakpoint_same. congruence.
Qed.

(** C7.  On an expression statement whose operator is not one of the
    twelve assignment operators (a comparison such as [==] among them)
    the handlers leave the bindings, the value assignments and the
    breakpoints as they were.  On one whose expression is an assignment
    with a recognized operator, the handler records the binding when the
    left-hand side has a ['name'], dispatches the left-hand and then the
    right-hand side under the same scope, and records the AssignmentPoint
    breakpoint of the statement's end line, whether or not the left-hand
    side is a bare identifier. *)
Theorem assignment_operator_filter n stmt scope self :
  getitem stmt "type" = Ok (VStr "ExpressionStatement") →
  ((∀ e op, getitem stmt "expression" = Ok e → getitem e "operator" = Ok op →
      op ∉ ASSIGN_OPERATORS) →
   findings (_walk n stmt scope self).2 = findings self) ∧
  (∀ e op left right l en line,
     getitem stmt "expression" = Ok e →
     getitem e "type" = Ok (VStr "AssignmentExpression") →
     getitem e "operator" = Ok op → op ∈ ASSIGN_OPERATORS →
     getitem e "left" = Ok left → is_expression left →
     getitem e "right" = Ok right → is_expression right →
     getitem stmt "loc" = Ok l → getitem l "end" = Ok en →
     getitem en "line" = Ok line →
     _walk (S (S n)) stmt scope self
     = ((match getitem left "name" with
         | Ok x => new_name x scope ≫= names_append_if_new
         | Exc _ => skip
         end);;
        _walk (S n) left scope;;
        _walk (S n) right scope;;
        set_breakpoint stmt scope ASSIGN_BREAKPOINT) self ∧
     ∃ self',
       _walk (S (S n)) stmt scope self = (Done (), self') ∧
       Breakpoint ASSIGN_BREAKPOINT line scope ∈ breakpoints self' ∧
       ∀ x, getitem left "name" = Ok x →
         NameRec x scope None ∈ names_view self').
Proof.
  intros Ht. split.
  - intros Hop. destruct n as [|n]; [done|]. simpl. unfold _walk_with.
    rewrite Ht, bind_lift_Ok.
    change (getattr_on (_walk n) (VStr "ExpressionStatement"))
      with (Some (onExpressionStatement (_walk n))).
    change (findings (onExpressionStatement (_walk n) stmt scope self).2
            = findings self).
    pose proof (unrecognized_operator_keeps (findings self) (_walk n) stmt
      scope Hop self eq_refl) as H.
    destruct (onExpressionStatement (_walk n) stmt scope self)
      as [[[]| |] ?]; exact H.
  - intros e op left right l en line He Het Hop Hin Hl Hle Hr Hre H1 H2 H3.
    split; [by eapply handleAssignmentExpression_unfold|].
    destruct (assignment_run n stmt scope e op left right l en line self)
      as (self1 & self' & Hb & Hw & Hnv & _ & _ & Hbp); try done.
    exists self'. split; [done|]. split.
    + rewrite Hbp. apply record_breakpoint_elem.
    + intros x Hx. rewrite Hx in Hb. rewrite Hnv.
      by eapply binding_records.
Qed.

(** ** C9: several assignments to one identifier *)

Lemma bind_mret {A B} (a : A) (k : A → M B) : mret a ≫= k = k a.
Proof. reflexivity. Qed.



(** ** C4: which literals become candidates *)

Lemma bind_ext {A B} (m m' : M A) (k k' : A → M B) self :
  m self = m' self → (∀ a self, k a self = k' a self) →
  (m ≫= k) self = (m' ≫= k') self.
Proof.
  intros Hm Hk. unfold mbind, M_bind. rewrite Hm.
  by destruct (m' self) as [[a| |] ?].
Qed.

Lemma call_arguments_run scope args : ∀ self,
  Forall is_dict args →
  for_each args (λ p,
    b ← lift (contains "type" p);
    if negb b then skip else
    t ← lift (getitem p "type");
    if bool_decide (t ∈ [VStr "Literal"]) then onLiteral p scope else skip)
    self
  = for_each (List.filter is_literal args)
      (λ p, add_shellcode (literal_value p)) self.
Proof.
  induction args as [|p args IH]; intros self Hd; [done|].
  apply Forall_cons in Hd as [[d ->] Hd]. simpl for_each.
  unfold is_literal at 1.
  change (contains "type" (VDict d))
    with (Ok (bool_decide (is_Some (d !! py "type")))).
  change (getitem (VDict d) "type")
    with (match d !! py "type" with
          | Some x => Ok x
          | None => Exc (KeyError "type")
          end).
  rewrite bind_lift_Ok. destruct (d !! py "type") as [t|] eqn:Et.
  - rewrite bool_decide_eq_true_2 by eauto. cbn [negb].
    rewrite bind_lift_Ok. destruct (bool_decide (t ∈ [VStr "Literal"])).
    + simpl for_each. apply bind_ext; [|intros [] self'; by apply IH].
      erewrite onLiteral_run; [done|]. simpl. by rewrite Et.
    + rewrite bind_skip. by apply IH.
  - rewrite bool_decide_eq_false_2 by (by intros [? ?]). cbn [negb].
    rewrite bind_skip. by apply IH.
Qed.

Lemma stores_primitive X (m : M nat) :
  (∀ self, stores (m self).2 = stores self) →
  keeps (λ self, stores self = X) m.
Proof.
  intros H self <-. specialize (H self). by destruct (m self) as [[?| |] ?].
Qed.

Lemma stores_unit X (m : M unit) :
  (∀ self, stores (m self).2 = stores self) →
  keeps (λ self, stores self = X) m.
Proof.
  intros H self <-. specialize (H self). by destruct (m self) as [[?| |] ?].
Qed.

Lemma stores_declare X decl scope :
  keeps (λ self, stores self = X) (declare decl scope).
Proof.
  unfold declare. repeat keeps_step.
  - by apply stores_primitive.
  - apply stores_unit. intros self. unfold names_append_if_new.
    destruct (heap self !! _); [|done]. by case_bool_decide.
  - apply keeps_set_breakpoint. intros line self <-.
    unfold record_breakpoint. by case_bool_decide.
  - by apply stores_unit.
  - apply stores_unit. intros self. unfold assignments_append_if_new.
    destruct (heap self !! _); [|done]. by case_bool_decide.
Qed.

Lemma onReturnStatement_run stmt scope arg t :
  getitem stmt "type" = Ok t →
  getitem stmt "argument" = Ok arg → is_dict arg →
  onReturnStatement stmt scope = add_shellcode (literal_value arg).
Proof.
  intros Ht Ha [d ->]. unfold onReturnStatement, literal_value.
  rewrite (getitem_truthy _ _ _ Ht). cbn [negb].
  rewrite (getitem_contains _ _ _ Ha), bind_lift_Ok. cbn [negb].
  rewrite Ha, bind_lift_Ok. simpl get. rewrite bind_lift_Ok.
  destruct (truthy _) eqn:E; [done|]. by rewrite add_shellcode_falsy.
Qed.

(** C4, as amended.  [add_shellcode] keeps a value exactly when it is
    text of at least 32 characters (forwarding it to the registry or
    adding it to the local set) and leaves the analysis untouched
    otherwise, so text of 31 characters is never kept.  A literal reaches
    it as the argument of a [return], as a literal argument of a call
    statement, and as a literal node that is dispatched (the sides of a
    recognized assignment).  The initializer of a declarator does not
    reach it: a variable declaration changes neither the local set nor the
    registry. *)
Theorem literal_is_candidate_iff_long_text n stmt scope self :
  (∀ v, ∃ self',
     add_shellcode v self = (Done (), self') ∧
     ((∃ s, v = VStr s ∧ 32 ≤ length s ∧
         (forwarded s self self' ∨ added_locally s self self')) ∨
      ((∀ s, v = VStr s → length s < 32) ∧ self' = self))) ∧
  (∀ arg, getitem stmt "type" = Ok (VStr "ReturnStatement") →
     getitem stmt "argument" = Ok arg → is_dict arg →
     _walk (S n) stmt scope self = add_shellcode (literal_value arg) self) ∧
  (∀ e args, getitem stmt "type" = Ok (VStr "ExpressionStatement") →
     getitem stmt "expression" = Ok e →
     getitem e "type" = Ok (VStr "CallExpression") →
     getitem e "arguments" = Ok (VList args) →
     Forall is_dict args →
     _walk (S n) stmt scope self
     = for_each (List.filter is_literal args)
         (λ p, add_shellcode (literal_value p)) self) ∧
  (getitem stmt "type" = Ok (VStr "Literal") →
   _walk (S n) stmt scope self = add_shellcode (literal_value stmt) self) ∧
  (getitem stmt "type" = Ok (VStr "VariableDeclaration") →
   stores (_walk (S n) stmt scope self).2 = stores self).
Proof.
  split; [|split; [|split; [|split]]].
  - intros v.
    assert ((∃ s, v = VStr s ∧ 32 ≤ length s) ∨
            (∀ s, v = VStr s → length s < 32)) as [(s & -> & Hs)|Hv].
    { destruct v as [| |s| |]; try (right; by intros).
      destruct (Nat.lt_ge_cases (length s) 32); [right|left; eauto].
      by intros ? [= <-]. }
    + destruct (add_shellcode_long s self Hs) as (self' & Hrun & Hkept).
      exists self'. split; [done|]. left. exists s. repeat split; [done|].
      destruct Hkept as [?|[_ ?]]; auto.
    + exists self. rewrite add_shellcode_short by done. auto.
  - intros arg Ht Ha Hd. simpl. unfold _walk_with. rewrite Ht, bind_lift_Ok.
    change (getattr_on (_walk n) (VStr "ReturnStatement"))
      with (Some onReturnStatement).
    cbv beta iota. by erewrite onReturnStatement_run.
  - intros e args Ht He Het Ha Hd. simpl. unfold _walk_with.
    rewrite Ht, bind_lift_Ok.
    change (getattr_on (_walk n) (VStr "ExpressionStatement"))
      with (Some (onExpressionStatement (_walk n))).
    unfold onExpressionStatement.
    rewrite (getitem_contains _ _ _ He), bind_lift_Ok. cbn [negb].
    rewrite He, bind_lift_Ok.
    rewrite (getitem_contains _ _ _ Het), bind_lift_Ok. cbn [negb].
    rewrite Het, bind_lift_Ok.
    change (getattr_handle (_walk n) (VStr "CallExpression"))
      with (Some handleCallExpression).
    unfold handleCallExpression.
    rewrite (getitem_contains _ _ _ He), bind_lift_Ok. cbn [negb].
    rewrite He, bind_lift_Ok.
    rewrite (getitem_contains _ _ _ Ha), bind_lift_Ok. cbn [negb].
    rewrite Ha, bind_lift_Ok. simpl iter. rewrite bind_lift_Ok.
    by apply call_arguments_run.
  - intros Ht. simpl. unfold _walk_with. rewrite Ht, bind_lift_Ok.
    change (getattr_on (_walk n) (VStr "Literal")) with (Some onLiteral).
    cbv beta iota. by erewrite onLiteral_run.
  - intros Ht. simpl. unfold _walk_with. rewrite Ht, bind_lift_Ok.
    change (getattr_on (_walk n) (VStr "VariableDeclaration"))
      with (Some onVariableDeclaration).
    cbv beta iota.
    assert (keeps (λ self', stores self' = stores self)
      (onVariableDeclaration stmt scope)) as H.
    { unfold onVariableDeclaration. repeat keeps_step.
      apply keeps_for_each. intros. apply stores_declare. }
    specialize (H self eq_refl).
    by destruct (onVariableDeclaration stmt scope self) as [[[]| |] ?].
Qed.

(** ** The budget is enough

    With a budget above the height of the tree the walk returns or raises;
    it does not stop for lack of budget. *)

Lemma settles_bind {A B} (m : M A) (k : A → M B) :
  settles m → (∀ a, settles (k a)) → settles (m ≫= k).
Proof.
  intros Hm Hk self. specialize (Hm self). unfold mbind, M_bind.
  destruct (m self) as [[a| |] self']; try done. apply Hk.
Qed.

Lemma settles_lift_bind {A B} (r : result A) (k : A → M B) :
  (∀ a, r = Ok a → settles (k a)) → settles (lift r ≫= k).
Proof.
  intros Hk self. destruct r as [a|e]; [|done].
  rewrite bind_lift_Ok. by apply Hk.
Qed.

Lemma settles_skip : settles skip.
Proof. by intros self. Qed.

Lemma settles_modify f : settles (modify f).
Proof. by intros self. Qed.

Lemma settles_for_each items body :
  (∀ item, item ∈ items → settles (body item)) →
  settles (for_each items body).
Proof.
  induction items as [|item rest IH]; intros H; [apply settles_skip|].
  simpl. apply settles_bind.
  - apply H. by left.
  - intros _. apply IH. intros x Hx. apply H. by right.
Qed.

Lemma settles_new_name n scope : settles (new_name n scope).
Proof. by intros self. Qed.

Lemma settles_names_append r : settles (names_append_if_new r).
Proof.
  intros self. unfold names_append_if_new.
  destruct (heap self !! r); [|done]. by case_bool_decide.
Qed.

Lemma settles_assignments_append r : settles (assignments_append_if_new r).
Proof.
  intros self. unfold assignments_append_if_new.
  destruct (heap self !! r); [|done]. by case_bool_decide.
Qed.

Lemma settles_add_shellcode v : settles (add_shellcode v).
Proof.
  intros self. by destruct (add_shellcode_findings v self) as (? & -> & _).
Qed.

Ltac settles_step :=
  lazymatch goal with
  | |- settles skip => apply settles_skip
  | |- settles (modify _) => apply settles_modify
  | |- settles (add_shellcode _) => apply settles_add_shellcode
  | |- settles (new_name _ _) => apply settles_new_name
  | |- settles (names_append_if_new _) => apply settles_names_append
  | |- settles (assignments_append_if_new _) =>
      apply settles_assignments_append
  | |- settles (lift _ ≫= _) => apply settles_lift_bind; intros ? ?
  | |- settles (if negb ?b then _ else _) => destruct b; cbn [negb]
  | |- settles (if ?b then _ else _) => destruct b eqn:?
  | |- settles (_ ≫= _) => apply settles_bind; [|intros ?]
  end.

Lemma settles_set_breakpoint stmt scope t :
  settles (set_breakpoint stmt scope t).
Proof. unfold set_breakpoint. repeat settles_step. Qed.

Lemma settles_onLiteral litr scope : settles (onLiteral litr scope).
Proof. unfold onLiteral. repeat settles_step. Qed.

Lemma settles_onReturnStatement stmt scope :
  settles (onReturnStatement stmt scope).
Proof. unfold onReturnStatement. repeat settles_step. Qed.

Lemma settles_declare decl scope : settles (declare decl scope).
Proof.
  unfold declare, set_value.
  repeat first [apply settles_set_breakpoint | settles_step].
Qed.

Lemma settles_onVariableDeclaration item scope :
  settles (onVariableDeclaration item scope).
Proof.
  unfold onVariableDeclaration. repeat settles_step.
  apply settles_for_each. intros. apply settles_declare.
Qed.

Lemma settles_handleCallExpression stmt scope :
  settles (handleCallExpression stmt scope).
Proof.
  unfold handleCallExpression. repeat settles_step.
  apply settles_for_each. intros p _.
  repeat first [apply settles_onLiteral | settles_step].
Qed.

Section handlers_settle.
Variable dispatch : value → value → M unit.
Variable root : value.
Hypothesis dispatch_settles : ∀ v scope,
  dispatched_from root v → settles (dispatch v scope).
Hypothesis root_no_null_body : no_null_body root.

Lemma settles_walk_with w body scope :
  child w root → inside body w → body ≠ VNone →
  settles (walk_with dispatch body scope).
Proof using dispatch_settles.
  intros Hw Hb Hne. unfold walk_with.
  rewrite bool_decide_eq_false_2 by done. rewrite bind_mret.
  apply settles_lift_bind. intros items Hi.
  apply settles_for_each. intros item Hin. apply dispatch_settles.
  exists w. split; [done|].
  destruct (iter_child _ _ _ Hi Hin) as [Hc|?]; [left|by right].
  by eapply rtc_l.
Qed.

Lemma settles_handleAssignmentExpression scope :
  settles (handleAssignmentExpression dispatch root scope).
Proof using dispatch_settles.
  unfold handleAssignmentExpression.
  settles_step. settles_step; [|apply settles_skip].
  apply settles_lift_bind. intros e He%getitem_child.
  settles_step. settles_step; [|apply settles_skip].
  settles_step. settles_step; [|apply settles_skip].
  apply settles_lift_bind. intros left Hl%getitem_child.
  settles_step. apply settles_bind; [repeat settles_step|]. intros _.
  apply settles_bind.
  { apply dispatch_settles. exists e. split; [done|]. left.
    by apply rtc_once. }
  intros _. apply settles_lift_bind. intros right Hr%getitem_child.
  apply settles_bind; [|intros _; apply settles_set_breakpoint].
  apply dispatch_settles. exists e. split; [done|]. left. by apply rtc_once.
Qed.

Lemma settles_onExpressionStatement scope :
  settles (onExpressionStatement dispatch root scope).
Proof using dispatch_settles.
  unfold onExpressionStatement. repeat settles_step.
  destruct (getattr_handle _ _) as [h|] eqn:Eh; [|apply settles_skip].
  apply getattr_handle_Some in Eh as [[_ ->]|[_ ->]].
  - apply settles_handleAssignmentExpression.
  - apply settles_handleCallExpression.
Qed.

Lemma settles_onFunctionDeclaration scope :
  settles (onFunctionDeclaration dispatch root scope).
Proof using dispatch_settles root_no_null_body.
  unfold onFunctionDeclaration.
  settles_step. settles_step; [|apply settles_skip].
  settles_step. settles_step. settles_step; [|apply settles_skip].
  settles_step. settles_step. settles_step; [|apply settles_skip].
  apply settles_lift_bind. intros body Hbody.
  settles_step. settles_step; [|apply settles_skip].
  apply settles_lift_bind. intros stmts Hstmts.
  pose proof (getitem_child _ _ _ Hbody) as Hc.
  apply getitem_dict in Hstmts as (d & -> & Hd).
  apply (settles_walk_with (VDict d)); [done| |].
  - apply rtc_once. by econstructor.
  - intros ->. eapply root_no_null_body; [|done]. by apply rtc_once.
Qed.

Lemma settles_onIfStatement scope :
  settles (onIfStatement dispatch root scope).
Proof using dispatch_settles.
  assert (∀ branch body, child branch root → get branch "body" = Ok body →
    truthy body = true → settles (walk_with dispatch body scope)) as Hwalk.
  { intros branch body Hc Hg Ht.
    destruct (get_child _ _ _ Hg) as [->|Hb]; [done|].
    apply (settles_walk_with branch); [done|by apply rtc_once|].
    by intros ->. }
  unfold onIfStatement. settles_step. apply settles_bind.
  - settles_step; [|apply settles_skip].
    apply settles_lift_bind. intros alt Ha%getitem_child.
    apply settles_lift_bind. intros body Hb.
    destruct (truthy body) eqn:Et; [|apply settles_skip]. by eapply Hwalk.
  - intros _. settles_step. settles_step; [|apply settles_skip].
    apply settles_lift_bind. intros cons Ha%getitem_child.
    apply settles_lift_bind. intros body Hb.
    destruct (truthy body) eqn:Et; [|apply settles_skip]. by eapply Hwalk.
Qed.

Lemma settles__walk_with scope :
  settles (_walk_with dispatch root scope).
Proof using dispatch_settles root_no_null_body.
  unfold _walk_with. apply settles_lift_bind. intros t Ht.
  destruct (getattr_on _ _) as [h|] eqn:Eh; [|apply settles_skip].
  apply getattr_on_Some in Eh.
  destruct Eh as [[_ ->]|[[_ ->]|[[_ ->]|[[_ ->]|[[_ ->]|[[_ ->]|
    [[_ ->]|[[_ ->]|[[_ ->]|[_ ->]]]]]]]]]];
    auto using settles_onExpressionStatement, settles_onVariableDeclaration,
      settles_onFunctionDeclaration, settles_onIfStatement,
      settles_onLiteral, settles_onReturnStatement;
    apply settles_set_breakpoint.
Qed.
End handlers_settle.

Lemma height_le_S n : ∀ v, height_le n v = true → height_le (S n) v = true.
Proof.
  induction n as [|n IH]; intros v H.
  - simpl in *. apply bool_decide_eq_true in H. by rewrite H.
  - change (forallb (height_le (S n)) (children v) = true).
    change (forallb (height_le n) (children v) = true) in H.
    rewrite forallb_forall in *. auto.
Qed.

Lemma height_le_child n u w :
  child u w → height_le (S n) w = true → height_le n u = true.
Proof.
  intros Hc%child_children H. simpl in H. rewrite forallb_forall in H.
  by apply H, list_elem_of_In.
Qed.

Lemma height_le_inside n v w :
  inside v w → height_le n w = true → height_le n v = true.
Proof.
  induction 1 as [|v u w Hc _ IH]; [done|]. intros H.
  specialize (IH H). destruct n as [|n].
  - simpl in IH. apply bool_decide_eq_true in IH.
    apply child_children in Hc. rewrite IH in Hc.
    by apply elem_of_nil in Hc.
  - apply height_le_S. by eapply height_le_child.
Qed.

Lemma no_null_body_inside v w :
  inside v w → no_null_body w → no_null_body v.
Proof. intros Hin H d Hd. apply H. by etrans. Qed.

Lemma settles__walk_atom n s scope : settles (_walk (S n) (VStr s) scope).
Proof. by intros self. Qed.

Lemma settles__walk n : ∀ item scope,
  height_le n item = true → no_null_body item →
  settles (_walk (S n) item scope).
Proof.
  induction n as [|n IH]; intros item scope Hh Hnull;
    apply settles__walk_with; try done.
  - intros v scope' (w & Hc%child_children & _).
    simpl in Hh. apply bool_decide_eq_true in Hh. rewrite Hh in Hc.
    by apply elem_of_nil in Hc.
  - intros v scope' (w & Hc & [Hin|[s ->]]);
      [|apply (settles__walk_atom n s scope')].
    apply (IH v scope').
    + eapply height_le_inside; [done|]. by eapply height_le_child.
    + eapply no_null_body_inside; [|done]. by eapply rtc_r.
Qed.

Lemma no_null_body_check n v :
  height_le n v = true →
  forallb (λ d, negb (bool_decide (getitem d "body" = Ok VNone)))
    (descendants n v) = true →
  no_null_body v.
Proof.
  intros Hh Hall d Hin Hd.
  apply (inside_descendants n) in Hin; [|done].
  rewrite forallb_forall in Hall. apply list_elem_of_In, Hall in Hin.
  simpl in Hin. rewrite Hd in Hin.
  by rewrite bool_decide_eq_true_2 in Hin.
Qed.

Lemma walk_from_root fuel tree scope self :
  ast self = Some tree →
  walk fuel VNone scope self
  = (lift (getitem tree "body") ≫= λ body,
     lift (iter body) ≫= λ items,
     for_each items (λ item, _walk fuel item scope)) self.
Proof.
  intros Ha. unfold walk, walk_with.
  change (bool_decide (VNone = VNone)) with true. cbv iota.
  unfold self_ast, mbind, M_bind, lift. rewrite Ha.
  by destruct (getitem tree "body").
Qed.

(** X18.  A budget above the height of the parsed tree is enough for the
    constructor: it returns or raises. *)
Theorem constructor_settles n script window tl tree :
  esprima_parse script = Some tree →
  height_le n tree = true → no_null_body tree →
  (__init__ (S n) script window tl).1 ≠ OutOfFuel.
Proof.
  intros Hp Hh Hnull. unfold __init__. rewrite Hp.
  rewrite (walk_from_root _ tree) by done.
  revert Hh Hnull. generalize (with_ast tree (init_state window tl)).
  intros self Hh Hnull. revert self.
  apply settles_lift_bind. intros body Hb%getitem_child.
  apply settles_lift_bind. intros items Hi.
  apply settles_for_each. intros item Hin.
  destruct (iter_child _ _ _ Hi Hin) as [Hc|[s ->]];
    [|apply settles__walk_atom].
  assert (inside item tree) as Hin'.
  { eapply rtc_l; [done|]. by apply rtc_once. }
  apply settles__walk.
  - by eapply height_le_inside.
  - by eapply no_null_body_inside.
Qed.

(** ** Properties kept by every walk *)

Lemma keeps_result {A} P (m : M A) self : keeps P m → P self → P (m self).2.
Proof.
  intros H HP. specialize (H self HP). by destruct (m self) as [[?| |] ?].
Qed.

Lemma keeps_unchanged {A X} (g : AST → X) (Q : X → Prop) (m : M A) :
  (∀ self, g (m self).2 = g self) → keeps (λ self, Q (g self)) m.
Proof.
  intros H self HQ. specialize (H self).
  destruct (m self) as [[?| |] ?]; simpl in H; by rewrite H.
Qed.

(** A property kept by the six updates the handlers make is kept by the
    walk. *)
Section updates_keep.
Variable P : AST → Prop.
Hypothesis P_new_name : ∀ n scope, keeps P (new_name n scope).
Hypothesis P_names : ∀ r, keeps P (names_append_if_new r).
Hypothesis P_assignments : ∀ r, keeps P (assignments_append_if_new r).
Hypothesis P_set_value : ∀ r raw, keeps P (set_value r raw).
Hypothesis P_record : ∀ bp self, P self → P (record_breakpoint bp self).
Hypothesis P_add_shellcode : ∀ v, keeps P (add_shellcode v).

Collection six_updates :=
  P_new_name P_names P_assignments P_set_value P_record P_add_shellcode.

Lemma keeps_declare_of_updates decl scope : keeps P (declare decl scope).
Proof using six_updates.
  unfold declare. repeat keeps_step; auto using keeps_set_breakpoint.
Qed.

Lemma keeps_walk_of_updates fuel body scope : keeps P (walk fuel body scope).
Proof using six_updates.
  apply keeps_walk with (Sc := λ _, True) (Re := True); try done.
  - intros. apply keeps_bind; auto.
  - intros. by apply P_record.
  - intros. apply keeps_declare_of_updates.
Qed.

Lemma keeps__walk_of_updates fuel item scope :
  keeps P (_walk fuel item scope).
Proof using six_updates.
  apply keeps__walk with (Sc := λ _, True) (Re := True); try done.
  - intros. apply keeps_bind; auto.
  - intros. by apply P_record.
  - intros. apply keeps_declare_of_updates.
Qed.

Lemma keeps_constructor_of_updates fuel script window tl :
  (∀ tree, P (with_ast tree (init_state window tl))) →
  P (init_state window tl) →
  P (__init__ fuel script window tl).2.
Proof using six_updates.
  intros Htree Hinit. unfold __init__.
  destruct (esprima_parse script) as [tree|]; [|done].
  apply keeps_result; [apply keeps_walk_of_updates|apply Htree].
Qed.
End updates_keep.

Ltac untouched g Q :=
  lazymatch goal with
  | |- ∀ _ _, keeps _ _ => intros ? ?
  | |- ∀ _, keeps _ _ => intros ?
  end;
  apply (keeps_unchanged g Q);
  let self := fresh "self" in
  intros self;
  unfold new_name, names_append_if_new, assignments_append_if_new,
    set_value, modify; simpl;
  try destruct (heap self !! _);
  try case_bool_decide; done.

Lemma add_shellcode_frame v self :
  calls (add_shellcode v self).2 = calls self ∧
  window (add_shellcode v self).2 = window self ∧
  ast (add_shellcode v self).2 = ast self ∧
  breakpoints (add_shellcode v self).2 = breakpoints self.
Proof.
  destruct v; try done. simpl.
  destruct (length s <? 32); [done|].
  unfold try_except, registry_forward.
  destruct (ThugLogging self); [|done].
  destruct (encode_latin1 s); [|done].
  by destruct (registry_add _ _).
Qed.

(** X1.  The breakpoints never hold the same entry twice: not after the
    constructor, and not after any further walk of an analysis whose
    breakpoints were free of repetitions. *)
Theorem breakpoints_never_repeat fuel script window tl n body scope self :
  NoDup (breakpoints (__init__ fuel script window tl).2) ∧
  (NoDup (breakpoints self) → NoDup (breakpoints (walk n body scope self).2)).
Proof.
  assert (∀ v, keeps (λ self, NoDup (breakpoints self)) (add_shellcode v))
    as Hsc.
  { intros v. apply (keeps_unchanged breakpoints NoDup).
    intros self'. apply add_shellcode_frame. }
  assert (∀ bp self, NoDup (breakpoints self) →
    NoDup (breakpoints (record_breakpoint bp self))) as Hbp
    by (intros; by apply record_breakpoint_NoDup).
  split.
  - apply (keeps_constructor_of_updates (λ self, NoDup (breakpoints self)));
      first [untouched breakpoints (@NoDup breakpoint) | done
            | intros; apply NoDup_nil_2].
  - apply (keeps_result (λ self, NoDup (breakpoints self))).
    apply keeps_walk_of_updates;
      first [untouched breakpoints (@NoDup breakpoint) | done].
Qed.

(** X2.  A string is kept in the local set only if it has at least 32
    characters: this holds of the set the constructor leaves, and a walk
    keeps it. *)
Theorem local_candidates_are_long fuel script w tl n body scope self s :
  (s ∈ shellcodes (__init__ fuel script w tl).2 → 32 ≤ length s) ∧
  ((∀ c, c ∈ shellcodes self → 32 ≤ length c) →
   s ∈ shellcodes (walk n body scope self).2 → 32 ≤ length s).
Proof.
  set (Q := λ S : gset pystr, ∀ c, c ∈ S → 32 ≤ length c).
  assert (∀ v, keeps (λ self, Q (shellcodes self)) (add_shellcode v)) as Hsc.
  { intros v self' HQ. destruct v as [| |c| |]; try done. simpl.
    destruct (Nat.ltb_spec (length c) 32) as [|Hc]; [done|].
    assert (Q ({[c]} ∪ shellcodes self')) as Hadd.
    { intros c' [->%elem_of_singleton|?]%elem_of_union; auto. }
    unfold try_except, registry_forward.
    destruct (ThugLogging self'); [|done].
    destruct (encode_latin1 c); [|done].
    by destruct (registry_add _ _). }
  assert (∀ bp self, Q (shellcodes self) →
    Q (shellcodes (record_breakpoint bp self))) as Hbp.
  { intros bp self'. unfold record_breakpoint. by case_bool_decide. }
  split.
  - revert s.
    apply (keeps_constructor_of_updates (λ self, Q (shellcodes self)));
      first [untouched shellcodes Q | done
            | intros; intros c Hc; by apply elem_of_empty in Hc].
  - intros HQ. revert s.
    apply (keeps_result (λ self, Q (shellcodes self))); [|done].
    apply keeps_walk_of_updates; first [untouched shellcodes Q | done].
Qed.

(** X3.  No handler writes to [calls], [window] or the tree: the constructor
    leaves [calls] empty and [window] as it was given, and a walk leaves
    all three as they were. *)
Theorem walk_leaves_calls_window_and_tree fuel script w tl n body scope self :
  (calls (__init__ fuel script w tl).2 = ∅ ∧
   window (__init__ fuel script w tl).2 = w) ∧
  calls (walk n body scope self).2 = calls self ∧
  window (walk n body scope self).2 = window self ∧
  ast (walk n body scope self).2 = ast self.
Proof.
  split.
  - set (g := λ self : AST, (calls self, window self)).
    set (Q := λ x : gset pystr * value, x.1 = ∅ ∧ x.2 = w).
    apply (keeps_constructor_of_updates (λ self, Q (g self)));
      first [untouched g Q | done | idtac].
    + intros bp self'. unfold record_breakpoint. by case_bool_decide.
    + intros v. apply (keeps_unchanged g Q). intros self'.
      destruct (add_shellcode_frame v self') as (Hc & Hw & _).
      unfold g. by rewrite Hc, Hw.
  - set (g := λ self : AST, (calls self, window self, ast self)).
    set (Q := λ x : gset pystr * value * option value, x = g self).
    assert (Q (g (walk n body scope self).2)) as [= -> -> ->]; [|done].
    apply (keeps_result (λ self, Q (g self))); [|done].
    apply keeps_walk_of_updates; first [untouched g Q | idtac].
    + intros bp self'. unfold record_breakpoint. by case_bool_decide.
    + intros v. apply (keeps_unchanged g Q). intros self'.
      destruct (add_shellcode_frame v self') as (Hc & Hw & Ha & _).
      unfold g. by rewrite Hc, Hw, Ha.
Qed.

Lemma extends_refl self : extends self self.
Proof. by repeat split. Qed.

Lemma plain_views_prefix (h h' : list name_rec) (l l' : list nat) :
  (∀ r, r ∈ l → r < length h) →
  (plain <$> h) `prefix_of` (plain <$> h') → l `prefix_of` l' →
  (plain <$> omap (λ r, h !! r) l) `prefix_of`
  (plain <$> omap (λ r, h' !! r) l').
Proof.
  intros Hv Hh [k ->]. rewrite omap_app, fmap_app.
  assert (plain <$> omap (λ r, h !! r) l = plain <$> omap (λ r, h' !! r) l)
    as ->; [|by apply prefix_app_r].
  induction l as [|r l IH]; [done|].
  destruct (lookup_lt_is_Some_2 h r) as [rec Hr]; [apply Hv; by left|].
  assert ((plain <$> h') !! r = Some (plain rec)) as Hr'.
  { eapply prefix_lookup_Some; [|done]. by rewrite list_lookup_fmap, Hr. }
  rewrite list_lookup_fmap in Hr'.
  destruct (h' !! r) as [rec'|] eqn:Er'; [|done].
  assert (plain rec' = plain rec) as Hp by (simpl in Hr'; congruence).
  change (omap (λ r, h !! r) (r :: l))
    with (match h !! r with
          | Some y => y :: omap (λ r, h !! r) l
          | None => omap (λ r, h !! r) l
          end).
  change (omap (λ r, h' !! r) (r :: l))
    with (match h' !! r with
          | Some y => y :: omap (λ r, h' !! r) l
          | None => omap (λ r, h' !! r) l
          end).
  rewrite Hr, Er', !fmap_cons, Hp. f_equal.
  apply IH. intros r' ?. apply Hv. by right.
Qed.

(** X4.  A walk only adds.  What the analysis held before is still there
    afterwards, in the same order and at the front: the breakpoints, the
    bindings and the value assignments it had are initial segments of the
    ones it has now (a binding may have gained a ['value'], its name and
    scope are the same), and no local candidate was removed. *)
Theorem walk_only_appends n body scope self :
  extends self (walk n body scope self).2 ∧
  (refs_valid self →
   (plain <$> names_view self) `prefix_of`
     (plain <$> names_view (walk n body scope self).2) ∧
   (plain <$> assignments_view self) `prefix_of`
     (plain <$> assignments_view (walk n body scope self).2)).
Proof.
  assert (extends self (walk n body scope self).2) as Hext.
  { apply (keeps_result (extends self)); [|apply extends_refl].
    apply keeps_walk_of_updates.
    - intros x sc self' (? & ? & ? & ? & ?). repeat split; try done. simpl.
      rewrite fmap_app. by apply prefix_app_r.
    - intros r self' (? & ? & ? & ? & ?). unfold names_append_if_new.
      destruct (heap self' !! r); [|done]. case_bool_decide; [done|].
      repeat split; try done. simpl. by apply prefix_app_r.
    - intros r self' (? & ? & ? & ? & ?). unfold assignments_append_if_new.
      destruct (heap self' !! r); [|done]. case_bool_decide; [done|].
      repeat split; try done. simpl. by apply prefix_app_r.
    - intros r raw. apply keeps_modify. intros self' (? & ? & ? & Hh & ?).
      repeat split; try done. simpl.
      destruct (heap self' !! r) as [rec|] eqn:Er; [|done].
      rewrite list_fmap_insert. simpl. rewrite list_insert_id; [done|].
      by rewrite list_lookup_fmap, Er.
    - intros bp self' (? & ? & ? & ? & ?). unfold record_breakpoint.
      case_bool_decide; [done|]. repeat split; try done. simpl.
      by apply prefix_app_r.
    - intros v self' (? & ? & ? & ? & Hs).
      destruct v as [| |c| |]; try done. simpl.
      destruct (length c <? 32); [done|].
      unfold try_except, registry_forward.
      assert (extends self (with_shellcodes (λ S, {[c]} ∪ S) self')) as Hadd.
      { repeat split; try done. simpl. etrans; [done|].
        apply union_subseteq_r. }
      destruct (ThugLogging self'); [|done].
      destruct (encode_latin1 c); [|done].
      by destruct (registry_add _ _). }
  split; [done|]. intros [Hn Ha].
  destruct Hext as (_ & ? & ? & ? & _).
  split; by apply plain_views_prefix.
Qed.

(** ** The dispatcher and statement lists *)

Lemma getattr_on_None dispatch t :
  (∀ s, t = VStr s → s ∉ handler_kinds) → getattr_on dispatch t = None.
Proof.
  intros H. destruct (getattr_on dispatch t) as [h|] eqn:E; [|done].
  exfalso. apply getattr_on_Some in E.
  repeat (destruct E as [[-> _]|E];
    [apply (H _ eq_refl); refine (bool_decide_unpack _ _); vm_compute;
     exact I|]).
  destruct E as [-> _].
  apply (H _ eq_refl); refine (bool_decide_unpack _ _); vm_compute; exact I.
Qed.

(** X5.  A node whose kind is not one of the ten the dispatcher has a
    handler for is skipped: the call returns and the analysis is what it
    was, whatever the node holds.  Call and function expressions, blocks,
    [switch], [try] and labelled statements are such nodes. *)
Theorem node_without_handler_is_skipped n item scope t self :
  getitem item "type" = Ok t →
  (∀ s, t = VStr s → s ∉ handler_kinds) →
  _walk (S n) item scope self = (Done (), self).
Proof.
  intros Ht H. simpl. unfold _walk_with. rewrite Ht, bind_lift_Ok.
  by rewrite getattr_on_None.
Qed.

Lemma walk_list n l scope :
  walk n (VList l) scope = for_each l (λ item, _walk n item scope).
Proof. reflexivity. Qed.

Lemma walk_with_not_a_list n body scope self :
  (∀ l, body ≠ VList l) → truthy body = true →
  walk_with (_walk (S n)) body scope self = (Raise TypeError, self).
Proof.
  intros Hl Ht. unfold walk_with.
  rewrite bool_decide_eq_false_2 by (by intros ->). rewrite bind_mret.
  destruct body as [|z|s|l|d]; try done.
  - destruct s as [|c s]; done.
  - by destruct (Hl l).
  - simpl iter. rewrite bind_lift_Ok.
    destruct (map_to_list d) as [|[k v] rest] eqn:E; [|done].
    apply map_to_list_empty_iff in E. by subst.
Qed.

(** X6.  [walk] takes a list of nodes.  Given anything else that is not
    empty (a single node, that is a dict, among them) it raises
    [TypeError] on the first thing it iterates over and leaves the
    analysis as it was. *)
Theorem walk_over_a_node_raises n body scope self :
  (∀ l, body ≠ VList l) → truthy body = true →
  walk (S n) body scope self = (Raise TypeError, self).
Proof. apply walk_with_not_a_list. Qed.

Lemma for_each_app a b f : ∀ self,
  for_each (a ++ b) f self = (for_each a f;; for_each b f) self.
Proof.
  induction a as [|x a IH]; intros self; [done|].
  simpl. unfold mbind, M_bind in *. destruct (f x self) as [[[]| |] self'];
    [|done..].
  apply IH.
Qed.

(** X7.  Walking a list is walking its parts one after the other: the walk
    of [a ++ b] is the walk of [a] followed, if that returns, by the walk
    of [b] from the analysis it left. *)
Theorem walk_of_concatenation n a b scope self :
  walk n (VList (a ++ b)) scope self
  = (walk n (VList a) scope;; walk n (VList b) scope) self.
Proof. rewrite !walk_list. apply for_each_app. Qed.

(** X8.  A node on which the dispatcher raises ends the walk of the list it
    is in: the exception leaves [walk], the analysis keeps what was
    recorded up to that point, and the nodes after it are not visited. *)
Theorem raising_statement_ends_the_walk n pre item post scope e self self1
    self2 :
  walk n (VList pre) scope self = (Done (), self1) →
  _walk n item scope self1 = (Raise e, self2) →
  walk n (VList (pre ++ item :: post)) scope self = (Raise e, self2).
Proof.
  rewrite !walk_list. intros Hpre Hitem.
  rewrite for_each_app, (bind_Done _ _ _ _ _ Hpre). simpl.
  unfold mbind, M_bind. by rewrite Hitem.
Qed.

(** ** [if] statements *)

Lemma bind_Raise {A B} (m : M A) (k : A → M B) self e self' :
  m self = (Raise e, self') → (m ≫= k) self = (Raise e, self').
Proof. unfold mbind, M_bind. intros ->. reflexivity. Qed.

Lemma branch_run dispatch d k scope self :
  (∀ branch, getitem (VDict d) k = Ok branch →
     ∃ b, get branch "body" = Ok b ∧ (b = VNone ∨ ∃ l, b = VList l)) →
  (if bool_decide (is_Some (d !! k)) then
     branch ← lift (getitem (VDict d) k);
     body ← lift (get branch "body");
     if truthy body then walk_with dispatch body scope else skip
   else skip) self
  = for_each (branch_block (VDict d) k) (λ item, dispatch item scope) self.
Proof.
  intros H. unfold branch_block.
  destruct (getitem (VDict d) k) as [branch|e] eqn:Eb.
  - rewrite (bool_decide_eq_true_2 (is_Some (d !! k))).
    2:{ apply getitem_dict in Eb as (? & [= <-] & ?). eauto. }
    rewrite bind_lift_Ok.
    destruct (H branch eq_refl) as (b & -> & [->|[l ->]]); [done|].
    rewrite bind_lift_Ok. by destruct l.
  - rewrite (bool_decide_eq_false_2 (is_Some (d !! k))); [done|].
    intros [x Hx]. simpl in Eb. by rewrite Hx in Eb.
Qed.

Lemma onIfStatement_run dispatch stmt scope self :
  is_dict stmt →
  (∀ k branch, k ∈ [py "alternate"; py "consequent"] →
     getitem stmt k = Ok branch →
     ∃ b, get branch "body" = Ok b ∧ (b = VNone ∨ ∃ l, b = VList l)) →
  onIfStatement dispatch stmt scope self
  = for_each (branch_block stmt "alternate" ++ branch_block stmt "consequent")
      (λ item, dispatch item scope) self.
Proof.
  intros [d ->] H. rewrite for_each_app. unfold onIfStatement.
  change (contains "alternate" (VDict d))
    with (Ok (bool_decide (is_Some (d !! py "alternate")))).
  change (contains "consequent" (VDict d))
    with (Ok (bool_decide (is_Some (d !! py "consequent")))).
  rewrite bind_lift_Ok. apply bind_ext.
  - apply branch_run. intros branch. apply H. by left.
  - intros [] self'. rewrite bind_lift_Ok. apply branch_run.
    intros branch. apply H. right. by left.
Qed.

(** X9.  An [if] statement whose branches are blocks, or nodes without a
    ['body'], is analysed as the statement list made of the [else] block
    followed by the [then] block, under the scope of the statement; a
    branch that is not a block contributes nothing. *)
Theorem if_statement_walks_else_block_then_then_block n stmt scope self :
  getitem stmt "type" = Ok (VStr "IfStatement") →
  (∀ k branch, k ∈ [py "alternate"; py "consequent"] →
     getitem stmt k = Ok branch →
     ∃ b, get branch "body" = Ok b ∧ (b = VNone ∨ ∃ l, b = VList l)) →
  _walk (S n) stmt scope self
  = walk n
      (VList (branch_block stmt "alternate" ++ branch_block stmt "consequent"))
      scope self.
Proof.
  intros Ht H. rewrite walk_list. simpl. unfold _walk_with.
  rewrite Ht, bind_lift_Ok.
  change (getattr_on (_walk n) (VStr "IfStatement"))
    with (Some (onIfStatement (_walk n))).
  cbv beta iota. apply onIfStatement_run; [|done].
  apply getitem_dict in Ht as (d & -> & _). by eexists.
Qed.

(** X10.  A branch that is a single statement and not a block (the
    [else if] of a chain among them) is not visited: an [if] statement
    whose branches have no ['body'] leaves the analysis as it was,
    whatever the branches hold. *)
Theorem if_branch_that_is_no_block_is_skipped n stmt scope self :
  getitem stmt "type" = Ok (VStr "IfStatement") →
  (∀ k branch, k ∈ [py "alternate"; py "consequent"] →
     getitem stmt k = Ok branch → get branch "body" = Ok VNone) →
  _walk (S n) stmt scope self = (Done (), self).
Proof.
  intros Ht H. simpl. unfold _walk_with. rewrite Ht, bind_lift_Ok.
  change (getattr_on (_walk n) (VStr "IfStatement"))
    with (Some (onIfStatement (_walk n))).
  cbv beta iota. rewrite onIfStatement_run.
  - unfold branch_block.
    destruct (getitem stmt "alternate") as [alt|] eqn:Ea;
      [rewrite (H "alternate" alt) by (done || by left)|];
      (destruct (getitem stmt "consequent") as [cons|] eqn:Ec;
        [by rewrite (H "consequent" cons) by (done || (right; by left))|done]).
  - apply getitem_dict in Ht as (d & -> & _). by eexists.
  - intros k branch Hk Hb. exists VNone. split; [by eapply H|by left].
Qed.

(** X11.  A branch whose ['body'] is a node instead of a list (a loop
    written without a block around it, for one) makes the handler hand
    that node to [walk], which raises [TypeError]: for the [else] branch
    at once, for the [then] branch when there is no [else]. *)
Theorem if_branch_with_node_body_raises n stmt scope k branch b self :
  getitem stmt "type" = Ok (VStr "IfStatement") →
  k = py "alternate" ∨
  (k = py "consequent" ∧ contains "alternate" stmt = Ok false) →
  getitem stmt k = Ok branch → get branch "body" = Ok b →
  (∀ l, b ≠ VList l) → truthy b = true →
  _walk (S (S n)) stmt scope self = (Raise TypeError, self).
Proof.
  intros Ht Hk Hbranch Hb Hl Htruthy.
  change (_walk (S (S n)) stmt scope self)
    with (_walk_with (_walk (S n)) stmt scope self).
  unfold _walk_with. rewrite Ht, bind_lift_Ok.
  change (getattr_on (_walk (S n)) (VStr "IfStatement"))
    with (Some (onIfStatement (_walk (S n)))).
  cbv beta iota. unfold onIfStatement.
  destruct Hk as [->|[-> Hno]].
  - rewrite (getitem_contains _ _ _ Hbranch), bind_lift_Ok.
    rewrite Hbranch, bind_lift_Ok, Hb, bind_lift_Ok, Htruthy.
    by apply bind_Raise, walk_with_not_a_list.
  - rewrite Hno, bind_lift_Ok, bind_skip.
    rewrite (getitem_contains _ _ _ Hbranch), bind_lift_Ok.
    rewrite Hbranch, bind_lift_Ok, Hb, bind_lift_Ok, Htruthy.
    by apply walk_with_not_a_list.
Qed.

(** ** Expression statements *)

(** X12.  An expression statement is looked at only when its expression is
    an assignment or a call.  Any other expression (a sequence, an update,
    a bare literal, a unary or conditional expression) is left alone, and
    so is everything nested in it. *)
Theorem other_expression_statement_is_ignored n stmt scope e t self :
  getitem stmt "type" = Ok (VStr "ExpressionStatement") →
  getitem stmt "expression" = Ok e → getitem e "type" = Ok t →
  t ≠ VStr "AssignmentExpression" → t ≠ VStr "CallExpression" →
  _walk (S n) stmt scope self = (Done (), self).
Proof.
  intros Ht He Het Ha Hc. simpl. unfold _walk_with.
  rewrite Ht, bind_lift_Ok.
  change (getattr_on (_walk n) (VStr "ExpressionStatement"))
    with (Some (onExpressionStatement (_walk n))).
  cbv beta iota. unfold onExpressionStatement.
  rewrite (getitem_contains _ _ _ He), bind_lift_Ok. cbn [negb].
  rewrite He, bind_lift_Ok.
  rewrite (getitem_contains _ _ _ Het), bind_lift_Ok. cbn [negb].
  rewrite Het, bind_lift_Ok.
  assert (getattr_handle (_walk n) t = None) as ->; [|done].
  destruct t as [| |s| |]; try done. simpl.
  rewrite !bool_decide_eq_false_2; [done|congruence..].
Qed.

(** ** Variable declarations, one declarator at a time *)

Lemma declaration_run n item scope decls self :
  getitem item "type" = Ok (VStr "VariableDeclaration") →
  getitem item "declarations" = Ok (VList decls) →
  _walk (S n) item scope self
  = for_each decls (λ decl, declare decl scope) self.
Proof.
  intros Ht Hd. simpl. unfold _walk_with. rewrite Ht, bind_lift_Ok.
  change (getattr_on (_walk n) (VStr "VariableDeclaration"))
    with (Some onVariableDeclaration).
  cbv beta iota. unfold onVariableDeclaration.
  rewrite (getitem_contains _ _ _ Hd), bind_lift_Ok. cbn [negb].
  by rewrite Hd, bind_lift_Ok.
Qed.

Lemma declare_unfold decl scope id x self :
  getitem decl "type" = Ok (VStr "VariableDeclarator") →
  getitem decl "id" = Ok id → getitem id "name" = Ok x →
  declare decl scope self
  = (name ← new_name x scope;
     names_append_if_new name;;
     b ← lift (contains "init" decl);
     if b : bool then
       set_breakpoint decl scope ASSIGN_BREAKPOINT;;
       init ← lift (getitem decl "init");
       b ← lift (contains "raw" init);
       if b : bool then
         raw ← lift (getitem init "raw");
         set_value name raw;;
         assignments_append_if_new name
       else skip
     else skip) self.
Proof.
  intros Ht Hid Hx. unfold declare.
  rewrite (getitem_contains _ _ _ Ht), bind_lift_Ok. cbn [negb].
  rewrite Ht, bind_lift_Ok.
  rewrite bool_decide_eq_true_2 by (by left). cbn [negb].
  by rewrite Hid, bind_lift_Ok, Hx, bind_lift_Ok.
Qed.

(** The new dict and the membership test on [names]. *)
Lemma declare_binding x scope self :
  refs_valid self →
  ∃ self1,
    (∀ k : nat → M unit,
       (name ← new_name x scope; names_append_if_new name;; k name) self
       = k (length (heap self)) self1) ∧
    heap self1 = heap self ++ [NameRec x scope None] ∧
    names self1
    = names self ++
      (if bool_decide (NameRec x scope None ∈ names_view self) then []
       else [length (heap self)]) ∧
    assignments self1 = assignments self ∧
    breakpoints self1 = breakpoints self ∧
    stores self1 = stores self.
Proof.
  intros [Hn Ha]. unfold new_name, mbind, M_bind, names_append_if_new.
  simpl. rewrite list_lookup_middle by done.
  assert (names_view (with_heap (λ h, h ++ [NameRec x scope None]) self)
    = names_view self) as -> by by apply omap_lookup_app.
  case_bool_decide; eexists; (split; [reflexivity|]); simpl;
    by rewrite ?app_nil_r.
Qed.

Lemma bind_skip_r (m : M unit) self : (m;; skip) self = m self.
Proof. unfold mbind, M_bind. by destruct (m self) as [[[]| |] ?]. Qed.

Lemma record_breakpoint_stores bp self :
  stores (record_breakpoint bp self) = stores self.
Proof. unfold record_breakpoint. by case_bool_decide. Qed.

(** The update of the new dict and the membership test on
    [assignments]. *)
Lemma declare_value r rec raw self0 self :
  refs_valid self0 → r = length (heap self0) →
  heap self = heap self0 ++ [rec] → assignments self = assignments self0 →
  ∃ self',
    (set_value r raw;; assignments_append_if_new r) self = (Done (), self') ∧
    heap self'
    = heap self0 ++ [NameRec (nr_name rec) (nr_scope rec) (Some raw)] ∧
    names self' = names self ∧
    assignments self'
    = assignments self0 ++
      (if bool_decide (NameRec (nr_name rec) (nr_scope rec) (Some raw)
                       ∈ assignments_view self0) then []
       else [r]) ∧
    breakpoints self' = breakpoints self ∧
    stores self' = stores self.
Proof.
  intros [Hn Ha] -> Hh Has.
  destruct self as [h ns asg bps cs scs w tree tl]. simpl in Hh, Has.
  subst h asg. unfold set_value. rewrite bind_modify.
  unfold assignments_append_if_new, assignments_view, with_heap. simpl.
  rewrite list_lookup_middle by done.
  rewrite insert_app_r_alt, Nat.sub_diag by done. simpl.
  rewrite list_lookup_middle by done.
  rewrite omap_lookup_app by done.
  case_bool_decide; eexists; (split; [reflexivity|]); simpl;
    by rewrite ?app_nil_r.
Qed.

Lemma views_extended self self' rec (bn ba : bool) :
  refs_valid self →
  heap self' = heap self ++ [rec] →
  names self' = names self ++ (if bn then [] else [length (heap self)]) →
  assignments self'
  = assignments self ++ (if ba then [] else [length (heap self)]) →
  refs_valid self' ∧
  names_view self' = names_view self ++ (if bn then [] else [rec]) ∧
  assignments_view self'
  = assignments_view self ++ (if ba then [] else [rec]).
Proof.
  intros [Hn Ha] Hh Hns Has.
  unfold refs_valid, names_view, assignments_view.
  rewrite Hh, Hns, Has, !omap_app, length_app.
  rewrite (omap_lookup_app _ _ (names self)) by done.
  rewrite (omap_lookup_app _ _ (assignments self)) by done.
  split; [split|split].
  - intros r [?%Hn|Hr]%elem_of_app; [lia|]. simpl.
    destruct bn; [by apply elem_of_nil in Hr|].
    apply list_elem_of_singleton in Hr. lia.
  - intros r [?%Ha|Hr]%elem_of_app; [lia|]. simpl.
    destruct ba; [by apply elem_of_nil in Hr|].
    apply list_elem_of_singleton in Hr. lia.
  - destruct bn; simpl; [done|]. by rewrite list_lookup_middle.
  - destruct ba; simpl; [done|]. by rewrite list_lookup_middle.
Qed.

(** X13.  [var x;].  A declarator without initializer records the binding
    of its name under the current scope, once: the pair is appended when
    the bindings do not hold an equal pair.  It records no breakpoint and
    no value assignment, and keeps no candidate. *)
Theorem declarator_without_initializer n item scope decl id x self :
  getitem item "type" = Ok (VStr "VariableDeclaration") →
  getitem item "declarations" = Ok (VList [decl]) →
  getitem decl "type" = Ok (VStr "VariableDeclarator") →
  getitem decl "id" = Ok id → getitem id "name" = Ok x →
  contains "init" decl = Ok false →
  refs_valid self →
  ∃ self',
    _walk (S n) item scope self = (Done (), self') ∧
    refs_valid self' ∧
    names_view self'
    = names_view self ++
      (if bool_decide (NameRec x scope None ∈ names_view self) then []
       else [NameRec x scope None]) ∧
    assignments_view self' = assignments_view self ∧
    breakpoints self' = breakpoints self ∧
    stores self' = stores self.
Proof.
  intros Ht Hd Hdt Hid Hx Hinit Hv.
  rewrite (declaration_run _ _ _ _ _ Ht Hd). simpl for_each.
  rewrite bind_skip_r, (declare_unfold decl scope id x self Hdt Hid Hx).
  destruct (declare_binding x scope self Hv)
    as (self1 & -> & Hh & Hn & Ha & Hb & Hs).
  rewrite Hinit, bind_lift_Ok. exists self1. split; [done|].
  destruct (views_extended self self1 (NameRec x scope None)
    (bool_decide (NameRec x scope None ∈ names_view self)) true Hv Hh Hn)
    as (? & ? & Hav); [by rewrite app_nil_r|].
  rewrite app_nil_r in Hav. done.
Qed.

(** X14.  [var x = <literal>;].  A declarator whose initializer has a
    ['raw'] source text records the AssignmentPoint breakpoint of the line
    the declarator ends on and the value assignment [(x, scope, raw)],
    each unless an equal one is held already.  The dict it builds for the
    binding is the one it then gives the ['value'] to, so the membership
    test on the bindings is made with the pair [(x, scope)], and what the
    bindings show for a new name is the triple.  No candidate is kept. *)
Theorem declarator_with_literal_initializer n item scope decl id x init raw
    l en line self :
  getitem item "type" = Ok (VStr "VariableDeclaration") →
  getitem item "declarations" = Ok (VList [decl]) →
  getitem decl "type" = Ok (VStr "VariableDeclarator") →
  getitem decl "id" = Ok id → getitem id "name" = Ok x →
  getitem decl "init" = Ok init → getitem init "raw" = Ok raw →
  getitem decl "loc" = Ok l → getitem l "end" = Ok en →
  getitem en "line" = Ok line →
  refs_valid self →
  ∃ self',
    _walk (S n) item scope self = (Done (), self') ∧
    refs_valid self' ∧
    names_view self'
    = names_view self ++
      (if bool_decide (NameRec x scope None ∈ names_view self) then []
       else [NameRec x scope (Some raw)]) ∧
    assignments_view self'
    = assignments_view self ++
      (if bool_decide (NameRec x scope (Some raw) ∈ assignments_view self)
       then [] else [NameRec x scope (Some raw)]) ∧
    breakpoints self'
    = breakpoints
        (record_breakpoint (Breakpoint ASSIGN_BREAKPOINT line scope) self) ∧
    stores self' = stores self.
Proof.
  intros Ht Hd Hdt Hid Hx Hinit Hraw H1 H2 H3 Hv.
  rewrite (declaration_run _ _ _ _ _ Ht Hd). simpl for_each.
  rewrite bind_skip_r, (declare_unfold decl scope id x self Hdt Hid Hx).
  destruct (declare_binding x scope self Hv)
    as (self1 & -> & Hh & Hn & Ha & Hb & Hs).
  rewrite (getitem_contains _ _ _ Hinit), bind_lift_Ok.
  rewrite (bind_Done _ _ _ _ _
    (set_breakpoint_run _ _ _ _ _ _ self1 H1 H2 H3)).
  rewrite Hinit, bind_lift_Ok.
  rewrite (getitem_contains _ _ _ Hraw), bind_lift_Ok, Hraw, bind_lift_Ok.
  pose proof (record_breakpoint_findings
    (Breakpoint ASSIGN_BREAKPOINT line scope) self1) as (Hh3 & Hn3 & Ha3).
  destruct (declare_value (length (heap self)) (NameRec x scope None) raw
    self (record_breakpoint (Breakpoint ASSIGN_BREAKPOINT line scope) self1)
    Hv eq_refl) as (self' & -> & Hh' & Hn' & Ha' & Hb' & Hs');
    [congruence..|].
  exists self'. split; [done|]. simpl in Hh', Ha'.
  destruct (views_extended self self' (NameRec x scope (Some raw))
    (bool_decide (NameRec x scope None ∈ names_view self))
    (bool_decide (NameRec x scope (Some raw) ∈ assignments_view self))
    Hv Hh') as (? & ? & ?); [congruence|done|].
  do 3 (split; [done|]). split.
  - rewrite Hb'. by apply record_breakpoint_same.
  - by rewrite Hs', record_breakpoint_stores.
Qed.

(** X15.  [var x = <expression>;].  When the initializer has no ['raw']
    (only literals have one) the declarator records the binding and the
    AssignmentPoint breakpoint of its end line, and no value
    assignment. *)
Theorem declarator_with_other_initializer n item scope decl id x init l en
    line self :
  getitem item "type" = Ok (VStr "VariableDeclaration") →
  getitem item "declarations" = Ok (VList [decl]) →
  getitem decl "type" = Ok (VStr "VariableDeclarator") →
  getitem decl "id" = Ok id → getitem id "name" = Ok x →
  getitem decl "init" = Ok init → contains "raw" init = Ok false →
  getitem decl "loc" = Ok l → getitem l "end" = Ok en →
  getitem en "line" = Ok line →
  refs_valid self →
  ∃ self',
    _walk (S n) item scope self = (Done (), self') ∧
    refs_valid self' ∧
    names_view self'
    = names_view self ++
      (if bool_decide (NameRec x scope None ∈ names_view self) then []
       else [NameRec x scope None]) ∧
    assignments_view self' = assignments_view self ∧
    breakpoints self'
    = breakpoints
        (record_breakpoint (Breakpoint ASSIGN_BREAKPOINT line scope) self) ∧
    stores self' = stores self.
Proof.
  intros Ht Hd Hdt Hid Hx Hinit Hraw H1 H2 H3 Hv.
  rewrite (declaration_run _ _ _ _ _ Ht Hd). simpl for_each.
  rewrite bind_skip_r, (declare_unfold decl scope id x self Hdt Hid Hx).
  destruct (declare_binding x scope self Hv)
    as (self1 & -> & Hh & Hn & Ha & Hb & Hs).
  rewrite (getitem_contains _ _ _ Hinit), bind_lift_Ok.
  rewrite (bind_Done _ _ _ _ _
    (set_breakpoint_run _ _ _ _ _ _ self1 H1 H2 H3)).
  rewrite Hinit, bind_lift_Ok, Hraw, bind_lift_Ok.
  pose proof (record_breakpoint_findings
    (Breakpoint ASSIGN_BREAKPOINT line scope) self1) as (Hh3 & Hn3 & Ha3).
  eexists. split; [done|].
  destruct (views_extended self
    (record_breakpoint (Breakpoint ASSIGN_BREAKPOINT line scope) self1)
    (NameRec x scope None)
    (bool_decide (NameRec x scope None ∈ names_view self)) true Hv)
    as (? & ? & Hav); [congruence|congruence|rewrite app_nil_r; congruence|].
  rewrite app_nil_r in Hav. do 2 (split; [done|]).
  split; [congruence|]. split.
  - by apply record_breakpoint_same.
  - by rewrite record_breakpoint_stores.
Qed.

(** ** Which exceptions leave a walk *)

Lemma getitem_error v k e : getitem v k = Exc e → lookup_error e.
Proof.
  destruct v as [| | | |d]; simpl; try (intros [= <-]; right; by left).
  destruct (d !! k); [done|]. intros [= <-]. left. by eexists.
Qed.

Lemma contains_error k v e : contains k v = Exc e → lookup_error e.
Proof. destruct v; simpl; try done; intros [= <-]; right; by left. Qed.

Lemma get_error v k e : get v k = Exc e → lookup_error e.
Proof. destruct v; simpl; try done; intros [= <-]; right; by right. Qed.

Lemma iter_error v e : iter v = Exc e → lookup_error e.
Proof. destruct v; simpl; try done; intros [= <-]; right; by left. Qed.

Lemma raises_only_bind {A B} E (m : M A) (k : A → M B) :
  raises_only E m → (∀ a, raises_only E (k a)) → raises_only E (m ≫= k).
Proof.
  intros Hm Hk self e. specialize (Hm self). unfold mbind, M_bind.
  destruct (m self) as [[a| |] self']; [apply Hk| |done].
  intros [= <-]. by apply Hm.
Qed.

Lemma raises_only_lift {A} E (r : result A) :
  (∀ e, r = Exc e → E e) → raises_only E (lift r).
Proof. intros H self e. destruct r; [done|]. intros [= <-]. by apply H. Qed.

Lemma raises_only_lift_bind {A B} E (r : result A) (k : A → M B) :
  (∀ e, r = Exc e → E e) → (∀ a, r = Ok a → raises_only E (k a)) →
  raises_only E (lift r ≫= k).
Proof.
  intros H Hk. destruct r as [a|e].
  - rewrite bind_lift_Ok. by apply Hk.
  - intros self e' [= <-]. by apply H.
Qed.

Lemma raises_only_returns {A} E (m : M A) :
  (∀ self, ∃ a self', m self = (Done a, self')) → raises_only E m.
Proof. intros H self e. by destruct (H self) as (a & self' & ->). Qed.

Lemma raises_only_for_each E items body :
  (∀ item, raises_only E (body item)) → raises_only E (for_each items body).
Proof.
  intros H. induction items as [|item rest IH]; [done|].
  simpl. apply raises_only_bind; [apply H|]. by intros _.
Qed.

Lemma raises_only_add_shellcode E v : raises_only E (add_shellcode v).
Proof.
  apply raises_only_returns. intros self.
  destruct (add_shellcode_findings v self) as (self' & -> & _). eauto.
Qed.

Lemma raises_only_names_append E r : raises_only E (names_append_if_new r).
Proof.
  intros self e. unfold names_append_if_new.
  destruct (heap self !! r); [|done]. by case_bool_decide.
Qed.

Lemma raises_only_assignments_append E r :
  raises_only E (assignments_append_if_new r).
Proof.
  intros self e. unfold assignments_append_if_new.
  destruct (heap self !! r); [|done]. by case_bool_decide.
Qed.

Ltac raises_step :=
  lazymatch goal with
  | |- raises_only _ skip => by intros ? ?
  | |- raises_only _ (mret _) => by intros ? ?
  | |- raises_only _ (modify _) => by intros ? ?
  | |- raises_only _ (set_value _ _) => by intros ? ?
  | |- raises_only _ (new_name _ _) => by intros ? ?
  | |- raises_only _ (add_shellcode _) => apply raises_only_add_shellcode
  | |- raises_only _ (names_append_if_new _) => apply raises_only_names_append
  | |- raises_only _ (assignments_append_if_new _) =>
      apply raises_only_assignments_append
  | |- raises_only _ (lift _ ≫= _) =>
      apply raises_only_lift_bind;
      [eauto using getitem_error, contains_error, get_error, iter_error
      |intros ? ?]
  | |- raises_only _ (lift _) =>
      apply raises_only_lift;
      eauto using getitem_error, contains_error, get_error, iter_error
  | |- raises_only _ (if negb ?b then _ else _) => destruct b; cbn [negb]
  | |- raises_only _ (if ?b then _ else _) => destruct b eqn:?
  | |- raises_only _ (_ ≫= _) => apply raises_only_bind; [|intros ?]
  end.

Lemma raises_only_set_breakpoint stmt scope t :
  raises_only lookup_error (set_breakpoint stmt scope t).
Proof. unfold set_breakpoint. repeat raises_step. Qed.

Lemma raises_only_onLiteral litr scope :
  raises_only lookup_error (onLiteral litr scope).
Proof. unfold onLiteral. repeat raises_step. Qed.

Lemma raises_only_onReturnStatement stmt scope :
  raises_only lookup_error (onReturnStatement stmt scope).
Proof. unfold onReturnStatement. repeat raises_step. Qed.

Lemma raises_only_declare decl scope :
  raises_only lookup_error (declare decl scope).
Proof.
  unfold declare.
  repeat first [apply raises_only_set_breakpoint | raises_step].
Qed.

Lemma raises_only_onVariableDeclaration item scope :
  raises_only lookup_error (onVariableDeclaration item scope).
Proof.
  unfold onVariableDeclaration. repeat raises_step.
  apply raises_only_for_each. intros. apply raises_only_declare.
Qed.

Lemma raises_only_handleCallExpression stmt scope :
  raises_only lookup_error (handleCallExpression stmt scope).
Proof.
  unfold handleCallExpression. repeat raises_step.
  apply raises_only_for_each. intros p.
  repeat first [apply raises_only_onLiteral | raises_step].
Qed.

Section handlers_raise.
Variable dispatch : value → value → M unit.
Hypothesis dispatch_raises : ∀ item scope,
  raises_only lookup_error (dispatch item scope).

Lemma raises_only_walk_with body scope :
  raises_only lookup_error (walk_with dispatch body scope).
Proof using dispatch_raises.
  unfold walk_with. apply raises_only_bind.
  - case_bool_decide; [|raises_step]. apply raises_only_bind.
    + intros self e. unfold self_ast. destruct (ast self); [done|].
      intros [= <-]. right. by right.
    + intros tree. raises_step.
  - intros b. raises_step. by apply raises_only_for_each.
Qed.

Lemma raises_only_handleAssignmentExpression stmt scope :
  raises_only lookup_error (handleAssignmentExpression dispatch stmt scope).
Proof using dispatch_raises.
  unfold handleAssignmentExpression.
  repeat first [apply dispatch_raises | apply raises_only_set_breakpoint
               | raises_step].
Qed.

Lemma raises_only_onExpressionStatement stmt scope :
  raises_only lookup_error (onExpressionStatement dispatch stmt scope).
Proof using dispatch_raises.
  unfold onExpressionStatement. repeat raises_step.
  destruct (getattr_handle _ _) as [h|] eqn:Eh; [|raises_step].
  apply getattr_handle_Some in Eh as [[_ ->]|[_ ->]].
  - apply raises_only_handleAssignmentExpression.
  - apply raises_only_handleCallExpression.
Qed.

Lemma raises_only_onFunctionDeclaration decl scope :
  raises_only lookup_error (onFunctionDeclaration dispatch decl scope).
Proof using dispatch_raises.
  unfold onFunctionDeclaration.
  repeat first [apply raises_only_walk_with | raises_step].
Qed.

Lemma raises_only_onIfStatement stmt scope :
  raises_only lookup_error (onIfStatement dispatch stmt scope).
Proof using dispatch_raises.
  unfold onIfStatement.
  repeat first [apply raises_only_walk_with | raises_step].
Qed.

Lemma raises_only__walk_with item scope :
  raises_only lookup_error (_walk_with dispatch item scope).
Proof using dispatch_raises.
  unfold _walk_with. raises_step.
  destruct (getattr_on _ _) as [h|] eqn:Eh; [|raises_step].
  apply getattr_on_Some in Eh.
  destruct Eh as [[_ ->]|[[_ ->]|[[_ ->]|[[_ ->]|[[_ ->]|[[_ ->]|
    [[_ ->]|[[_ ->]|[[_ ->]|[_ ->]]]]]]]]]];
    auto using raises_only_onExpressionStatement,
      raises_only_onVariableDeclaration, raises_only_onFunctionDeclaration,
      raises_only_onIfStatement, raises_only_onLiteral,
      raises_only_onReturnStatement;
    apply raises_only_set_breakpoint.
Qed.
End handlers_raise.

Lemma raises_only__walk fuel : ∀ item scope,
  raises_only lookup_error (_walk fuel item scope).
Proof.
  induction fuel as [|fuel IH]; intros item scope; [by intros ? ?|].
  simpl. by apply raises_only__walk_with.
Qed.

(** X16.  Apart from the exhaustion of the interpreter's recursion limit
    on a deeply nested tree (a [RecursionError], which the embedding
    renders as the outcome [OutOfFuel] and not as an exception), the only
    exceptions that leave a walk, and so the constructor, are those of a
    failed lookup in the tree: [KeyError], [TypeError] and
    [AttributeError].  What the registry raises, and a string that has no
    single-byte form, never do: [add_shellcode] catches them.  When the
    budget of nested calls is above the height of the parsed tree (and no
    dict of the tree maps ['body'] to [None]) the limit is not reached,
    and the constructor returns or raises one of the three. *)
Theorem raise_of_walk_is_lookup_error fuel script w tl n body scope self e
    tree m :
  ((__init__ fuel script w tl).1 = Raise e →
   lookup_error e ∧ e ≠ UnicodeEncodeError ∧ e ≠ RegistryError) ∧
  ((walk n body scope self).1 = Raise e →
   lookup_error e ∧ e ≠ UnicodeEncodeError ∧ e ≠ RegistryError) ∧
  (esprima_parse script = Some tree →
   height_le m tree = true → no_null_body tree →
   (__init__ (S m) script w tl).1 = Done () ∨
   ∃ e', (__init__ (S m) script w tl).1 = Raise e' ∧ lookup_error e').
Proof.
  assert (lookup_error e →
    lookup_error e ∧ e ≠ UnicodeEncodeError ∧ e ≠ RegistryError) as Hl.
  { intros H. split; [done|].
    destruct H as [[k ->]|[->| ->]]; by split. }
  assert (∀ n body scope, raises_only lookup_error (walk n body scope))
    as Hw.
  { intros. apply raises_only_walk_with. apply raises_only__walk. }
  split; [|split].
  - intros H. apply Hl. unfold __init__ in H.
    destruct (esprima_parse script); [|done]. by eapply Hw.
  - intros H. apply Hl. by eapply Hw.
  - intros Hp Hh Hnull.
    assert ((__init__ (S m) script w tl).1 ≠ OutOfFuel) as Hfuel.
    { unfold __init__. rewrite Hp.
      rewrite (walk_from_root _ tree) by done.
      generalize (with_ast tree (init_state w tl)). intros st. revert st.
      apply settles_lift_bind. intros b Hb%getitem_child.
      apply settles_lift_bind. intros items Hi.
      apply settles_for_each. intros item Hin.
      destruct (iter_child _ _ _ Hi Hin) as [Hc|[s ->]];
        [|apply settles__walk_atom].
      assert (inside item tree) as Hin'.
      { eapply rtc_l; [done|]. by apply rtc_once. }
      apply settles__walk.
      - by eapply height_le_inside.
      - by eapply no_null_body_inside. }
    assert (∀ e', (__init__ (S m) script w tl).1 = Raise e' →
      lookup_error e') as Hraise.
    { intros e' H. unfold __init__ in H. rewrite Hp in H. by eapply Hw. }
    destruct (__init__ (S m) script w tl).1 as [[]|e'|]; [by left| |done].
    right. exists e'. split; [done|]. by apply Hraise.
Qed.

(** ** The right-hand side of an assignment *)

Lemma binding_stores x scope self :
  stores ((new_name x scope ≫= names_append_if_new) self).2 = stores self.
Proof.
  unfold new_name, mbind, M_bind, names_append_if_new. simpl.
  rewrite list_lookup_middle by done. by case_bool_decide.
Qed.

Lemma no_registry__walk fuel item scope :
  keeps (λ self, ThugLogging self = None) (_walk fuel item scope).
Proof.
  apply keeps__walk_of_updates;
    first [untouched ThugLogging (λ tl : option Registry, tl = None) | idtac].
  - intros bp self. unfold record_breakpoint. by case_bool_decide.
  - intros v self Hno. destruct v as [| |c| |]; try done. simpl.
    destruct (length c <? 32); [done|].
    unfold try_except, registry_forward. by rewrite Hno.
Qed.

(** X17.  [x = <literal>;].  With no registry installed, a string literal
    of at least 32 characters on the right-hand side of a recognized
    assignment is in the local set once the statement has been visited,
    whether the visit returns or its breakpoint cannot be recorded. *)
Theorem assigned_literal_is_kept n stmt scope e op left right s self :
  getitem stmt "type" = Ok (VStr "ExpressionStatement") →
  getitem stmt "expression" = Ok e →
  getitem e "type" = Ok (VStr "AssignmentExpression") →
  getitem e "operator" = Ok op → op ∈ ASSIGN_OPERATORS →
  getitem e "left" = Ok left → is_expression left →
  getitem e "right" = Ok right →
  getitem right "type" = Ok (VStr "Literal") →
  getitem right "value" = Ok (VStr s) →
  32 ≤ length s → ThugLogging self = None →
  s ∈ shellcodes (_walk (S (S n)) stmt scope self).2.
Proof.
  intros Ht He Het Hop Hin Hl Hle Hr Hrt Hrv Hlen Hno.
  rewrite (handleAssignmentExpression_unfold n stmt scope e op left right)
    by done.
  assert (∃ self1,
    (match getitem left "name" with
     | Ok x => new_name x scope ≫= names_append_if_new
     | Exc _ => skip
     end) self = (Done (), self1) ∧ ThugLogging self1 = None)
    as (self1 & H1 & Hno1).
  { destruct (getitem left "name") as [x|]; [|by eexists].
    destruct (binding_done x scope self) as (self1 & Hb & _).
    exists self1. split; [done|].
    pose proof (binding_stores x scope self) as Hs. rewrite Hb in Hs.
    injection Hs as _ Hs. by rewrite Hs. }
  destruct (walk_expression n left scope self1 Hle) as (self2 & H2 & _).
  assert (ThugLogging self2 = None) as Hno2.
  { pose proof (keeps_result _ _ self1 (no_registry__walk (S n) left scope)
      Hno1) as H. by rewrite H2 in H. }
  assert (_walk (S n) right scope self2
    = (Done (), with_shellcodes (λ S, {[s]} ∪ S) self2)) as H3.
  { simpl. unfold _walk_with. rewrite Hrt, bind_lift_Ok.
    change (getattr_on (_walk n) (VStr "Literal")) with (Some onLiteral).
    cbv beta iota. rewrite (onLiteral_run _ _ _ Hrt). unfold literal_value.
    apply getitem_dict in Hrv as (d & -> & Hd). simpl. rewrite Hd. simpl.
    destruct (Nat.ltb_spec (length s) 32) as [|_]; [lia|].
    unfold try_except, registry_forward. by rewrite Hno2. }
  rewrite (bind_Done _ _ _ _ _ H1), (bind_Done _ _ _ _ _ H2).
  rewrite (bind_Done _ _ _ _ _ H3).
  apply (keeps_result (λ self, s ∈ shellcodes self)).
  - apply keeps_set_breakpoint. intros line self' H.
    unfold record_breakpoint. by case_bool_decide.
  - simpl. apply elem_of_union_l. by apply elem_of_singleton.
Qed.

(** ** Walking a second time *)

Lemma replays_bind {A B} (V : A → A → Prop) (W : B → B → Prop)
    (m m' : M A) (k k' : A → M B) :
  replays V m m' → (∀ a a', V a a' → replays W (k a) (k' a')) →
  replays W (m ≫= k) (m' ≫= k').
Proof.
  intros Hm Hk self self' Ha. unfold mbind, M_bind.
  destruct (Hm self self' Ha) as (Hast & Hout & Hmono & Hsame).
  destruct (m self) as [[a| |] s1], (m' self') as [[a'| |] s1'];
    simpl in *; try done.
  destruct (Hk a a' Hout s1 s1' Hast) as (Hast2 & Hout2 & Hmono2 & Hsame2).
  split; [done|]. split; [done|]. split; [by etrans|].
  intros Hsub. rewrite <- Hsame by (by etrans). apply Hsame2.
  rewrite Hsame by (by etrans). done.
Qed.

Lemma replays_quiet {A} (V : A → A → Prop) (m m' : M A) :
  quiet m → quiet m' → (∀ a a', V a a') → replays V m m'.
Proof.
  intros Hm Hm' HV self self' Ha.
  destruct (Hm self) as (a & Ho & Hast & Hb).
  destruct (Hm' self') as (a' & Ho' & Hast' & Hb').
  rewrite Ho, Ho', Hast, Hast', Hb, Hb'. done.
Qed.

Lemma replays_lift {A} (r : result A) : replays eq (lift r) (lift r).
Proof. intros self self' Ha. by destruct r. Qed.

Lemma replays_lift_bind {A B} (W : B → B → Prop) (r : result A)
    (k k' : A → M B) :
  (∀ a, r = Ok a → replays W (k a) (k' a)) →
  replays W (lift r ≫= k) (lift r ≫= k').
Proof.
  intros Hk. destruct r as [a|e]; [rewrite !bind_lift_Ok; by apply Hk|].
  by intros self self' Ha.
Qed.

Lemma replays_skip : replays (λ _ _, True) skip skip.
Proof. by intros self self' Ha. Qed.

Lemma replays_out_of_fuel : replays (λ _ _, True) out_of_fuel out_of_fuel.
Proof. by intros self self' Ha. Qed.

Lemma replays_for_each items body :
  (∀ item, replays (λ _ _, True) (body item) (body item)) →
  replays (λ _ _, True) (for_each items body) (for_each items body).
Proof.
  intros H. induction items as [|item rest IH]; [apply replays_skip|].
  simpl. eapply replays_bind; [apply H|]. by intros _ _ _.
Qed.

Lemma replays_record bp :
  replays (λ _ _, True) (modify (record_breakpoint bp))
    (modify (record_breakpoint bp)).
Proof.
  intros self self' Ha. unfold modify, record_breakpoint. simpl.
  split; [by repeat case_bool_decide|]. split; [done|]. split.
  - case_bool_decide; [done|]. simpl. intros x Hx. apply elem_of_app. auto.
  - intros Hsub. rewrite bool_decide_eq_true_2; [done|]. apply Hsub.
    case_bool_decide; [done|]. simpl. apply elem_of_app. right. by left.
Qed.

Lemma replays_set_breakpoint stmt scope t :
  replays (λ _ _, True) (set_breakpoint stmt scope t)
    (set_breakpoint stmt scope t).
Proof.
  unfold set_breakpoint. do 3 (apply replays_lift_bind; intros ? _).
  apply replays_record.
Qed.

Lemma quiet_new_name n scope : quiet (new_name n scope).
Proof. intros self. by eexists. Qed.

Lemma quiet_names_append r : quiet (names_append_if_new r).
Proof.
  intros self. unfold names_append_if_new.
  destruct (heap self !! r); [|by eexists]. case_bool_decide; by eexists.
Qed.

Lemma quiet_assignments_append r : quiet (assignments_append_if_new r).
Proof.
  intros self. unfold assignments_append_if_new.
  destruct (heap self !! r); [|by eexists]. case_bool_decide; by eexists.
Qed.

Lemma quiet_set_value r raw : quiet (set_value r raw).
Proof. intros self. by eexists. Qed.

Lemma quiet_add_shellcode v : quiet (add_shellcode v).
Proof.
  intros self.
  destruct (add_shellcode_findings v self) as (self' & -> & [= _ _ _ ?] & ?).
  by eexists.
Qed.

Ltac replays_step :=
  lazymatch goal with
  | |- replays _ skip skip => apply replays_skip
  | |- replays _ (set_breakpoint _ _ _) (set_breakpoint _ _ _) =>
      apply replays_set_breakpoint
  | |- replays _ (new_name _ _) (new_name _ _) =>
      apply (replays_quiet (λ _ _, True)); auto using quiet_new_name
  | |- replays _ (names_append_if_new _) (names_append_if_new _) =>
      apply (replays_quiet (λ _ _, True)); auto using quiet_names_append
  | |- replays _ (assignments_append_if_new _)
         (assignments_append_if_new _) =>
      apply (replays_quiet (λ _ _, True));
      auto using quiet_assignments_append
  | |- replays _ (set_value _ _) (set_value _ _) =>
      apply (replays_quiet (λ _ _, True)); auto using quiet_set_value
  | |- replays _ (add_shellcode _) (add_shellcode _) =>
      apply (replays_quiet (λ _ _, True)); auto using quiet_add_shellcode
  | |- replays _ (lift _ ≫= _) (lift _ ≫= _) =>
      apply replays_lift_bind; intros ? ?
  | |- replays _ (if negb ?b then _ else _) (if negb ?b then _ else _) =>
      destruct b; cbn [negb]
  | |- replays _ (if ?b then _ else _) (if ?b then _ else _) =>
      destruct b eqn:?
  | |- replays _ (_ ≫= _) (_ ≫= _) =>
      eapply replays_bind; [|intros ? ? ?]
  end.

Lemma replays_onLiteral litr scope :
  replays (λ _ _, True) (onLiteral litr scope) (onLiteral litr scope).
Proof. unfold onLiteral. repeat replays_step. Qed.

Lemma replays_onReturnStatement stmt scope :
  replays (λ _ _, True) (onReturnStatement stmt scope)
    (onReturnStatement stmt scope).
Proof. unfold onReturnStatement. repeat replays_step. Qed.

Lemma replays_declare decl scope :
  replays (λ _ _, True) (declare decl scope) (declare decl scope).
Proof. unfold declare. repeat replays_step. Qed.

Lemma replays_onVariableDeclaration item scope :
  replays (λ _ _, True) (onVariableDeclaration item scope)
    (onVariableDeclaration item scope).
Proof.
  unfold onVariableDeclaration. repeat replays_step.
  apply replays_for_each. intros. apply replays_declare.
Qed.

Lemma replays_handleCallExpression stmt scope :
  replays (λ _ _, True) (handleCallExpression stmt scope)
    (handleCallExpression stmt scope).
Proof.
  unfold handleCallExpression. repeat replays_step.
  apply replays_for_each. intros p.
  repeat first [apply replays_onLiteral | replays_step].
Qed.

Section handlers_replay.
Variable dispatch : value → value → M unit.
Hypothesis dispatch_replays : ∀ item scope,
  replays (λ _ _, True) (dispatch item scope) (dispatch item scope).

Lemma replays_walk_with body scope :
  replays (λ _ _, True) (walk_with dispatch body scope)
    (walk_with dispatch body scope).
Proof using dispatch_replays.
  unfold walk_with. apply replays_bind with (V := eq).
  - case_bool_decide; [|by intros self self' Ha].
    apply replays_bind with (V := eq).
    + intros self self' Ha. unfold self_ast. rewrite <- Ha.
      destruct (ast self) eqn:E; simpl; (split; [congruence|done]).
    + intros tree _ <-. apply replays_lift.
  - intros b _ <-. replays_step. by apply replays_for_each.
Qed.

Lemma replays_handleAssignmentExpression stmt scope :
  replays (λ _ _, True) (handleAssignmentExpression dispatch stmt scope)
    (handleAssignmentExpression dispatch stmt scope).
Proof using dispatch_replays.
  unfold handleAssignmentExpression.
  repeat first [apply dispatch_replays | replays_step].
Qed.

Lemma replays_onExpressionStatement stmt scope :
  replays (λ _ _, True) (onExpressionStatement dispatch stmt scope)
    (onExpressionStatement dispatch stmt scope).
Proof using dispatch_replays.
  unfold onExpressionStatement. repeat replays_step.
  destruct (getattr_handle _ _) as [h|] eqn:Eh; [|apply replays_skip].
  apply getattr_handle_Some in Eh as [[_ ->]|[_ ->]].
  - apply replays_handleAssignmentExpression.
  - apply replays_handleCallExpression.
Qed.

Lemma replays_onFunctionDeclaration decl scope :
  replays (λ _ _, True) (onFunctionDeclaration dispatch decl scope)
    (onFunctionDeclaration dispatch decl scope).
Proof using dispatch_replays.
  unfold onFunctionDeclaration.
  repeat first [apply replays_walk_with | replays_step].
Qed.

Lemma replays_onIfStatement stmt scope :
  replays (λ _ _, True) (onIfStatement dispatch stmt scope)
    (onIfStatement dispatch stmt scope).
Proof using dispatch_replays.
  unfold onIfStatement.
  repeat first [apply replays_walk_with | replays_step].
Qed.

Lemma replays__walk_with item scope :
  replays (λ _ _, True) (_walk_with dispatch item scope)
    (_walk_with dispatch item scope).
Proof using dispatch_replays.
  unfold _walk_with. replays_step.
  destruct (getattr_on _ _) as [h|] eqn:Eh; [|apply replays_skip].
  apply getattr_on_Some in Eh.
  destruct Eh as [[_ ->]|[[_ ->]|[[_ ->]|[[_ ->]|[[_ ->]|[[_ ->]|
    [[_ ->]|[[_ ->]|[[_ ->]|[_ ->]]]]]]]]]];
    auto using replays_onExpressionStatement,
      replays_onVariableDeclaration, replays_onFunctionDeclaration,
      replays_onIfStatement, replays_onLiteral,
      replays_onReturnStatement;
    apply replays_set_breakpoint.
Qed.
End handlers_replay.

Lemma replays__walk fuel : ∀ item scope,
  replays (λ _ _, True) (_walk fuel item scope) (_walk fuel item scope).
Proof.
  induction fuel as [|fuel IH]; intros item scope;
    [apply replays_out_of_fuel|].
  simpl. by apply replays__walk_with.
Qed.

Lemma walk_keeps_tree n body scope self :
  ast (walk n body scope self).2 = ast self.
Proof.
  apply (keeps_result (λ st, ast st = ast self)); [|done].
  apply keeps_walk_of_updates;
    first [untouched ast (λ a : option value, a = ast self) | idtac].
  - intros bp st. unfold record_breakpoint. by case_bool_decide.
  - intros v. apply (keeps_unchanged ast (λ a, a = ast self)).
    intros st. apply add_shellcode_frame.
Qed.

(** X19.  Walking again adds no breakpoint.  A second walk of the same
    statements under the same scope, from the analysis the first walk
    left, ends as the first one did (it returns, or raises the same
    exception) and leaves the breakpoints exactly as they were; so does
    the [walk()] that the module's tests make after the constructor. *)
Theorem second_walk_adds_no_breakpoint fuel script w tl n body scope self :
  (breakpoints (walk n body scope (walk n body scope self).2).2
   = breakpoints (walk n body scope self).2 ∧
   (walk n body scope (walk n body scope self).2).1
   = (walk n body scope self).1) ∧
  breakpoints (walk fuel VNone VNone (__init__ fuel script w tl).2).2
  = breakpoints (__init__ fuel script w tl).2.
Proof.
  assert (∀ n body scope self,
    breakpoints (walk n body scope (walk n body scope self).2).2
    = breakpoints (walk n body scope self).2 ∧
    (walk n body scope (walk n body scope self).2).1
    = (walk n body scope self).1) as Hw.
  { intros n' body' scope' self'.
    destruct (replays_walk_with (_walk n') (replays__walk n') body' scope'
      self' (walk n' body' scope' self').2) as (_ & Hout & _ & Hsame).
    { symmetry. apply walk_keeps_tree. }
    split; [by apply Hsame|].
    fold (walk n' body' scope') in Hout.
    destruct (walk n' body' scope' self').1 as [[]| |],
      (walk n' body' scope' (walk n' body' scope' self').2).1 as [[]| |];
      by try subst. }
  split; [apply Hw|]. unfold __init__.
  destruct (esprima_parse script) as [tree|]; [apply Hw|].
  reflexivity.
Qed.

End AST.

(** * The module on concrete scripts *)

(** An analysis object before anything ran, with no registry installed and
    with an empty one. *)
Abbreviation fresh :=
  (init_state (Registry := list (list byte)) VNone None).

Abbreviation fresh_with_registry :=
  (init_state (Registry := list (list byte)) VNone (Some [])).



(** The two declarations [var x = 5;] leave an analysis from which a second
    walk, as the module's tests make it, keeps the relation. *)
Lemma value_assignment_aliases_binding_witness :
  assignments_aliased
    (__init__ list_registry_add (parse_as script_var_x_5_twice) 4 "" VNone
       None).2 ∧
  assignments_aliased
    (walk list_registry_add 4 VNone VNone
       (__init__ list_registry_add (parse_as script_var_x_5_twice) 4 ""
          VNone None).2).2.
Proof.
  pose proof (value_assignment_aliases_binding list_registry_add
    (parse_as script_var_x_5_twice) 4 "" VNone None 4 VNone VNone
    (__init__ list_registry_add (parse_as script_var_x_5_twice) 4 "" VNone
       None).2) as [[H1 _] H2].
  split; [exact H1|exact (proj1 (H2 H1))].
Defined.

(** C10 as stated fails: after [var x;] and [var x = 5;] the value
    assignment is a triple that the bindings do not hold; they hold the
    pair recorded by the first declaration. *)
Lemma value_assignment_not_among_bindings :
  assignments_view
    (__init__ list_registry_add (parse_as script_var_x_then_5) 4 "" VNone
       None).2
  = [NameRec (VStr "x") VNone (Some (VStr "5"))] ∧
  names_view
    (__init__ list_registry_add (parse_as script_var_x_then_5) 4 "" VNone
       None).2
  = [NameRec (VStr "x") VNone None] ∧
  NameRec (VStr "x") VNone (Some (VStr "5")) ≠ NameRec (VStr "x") VNone None.
Proof. split; [by vm_compute|]. split; [by vm_compute|discriminate]. Qed.

(** C3 fails on the code: the two declarations [var x = 5;] leave two equal
    bindings for [x] in the same scope.  The first binding was mutated in
    place to carry ['value'], so the second declaration's fresh pair is not
    found among the names and is appended, then mutated in turn. *)
Lemma duplicate_binding_after_redeclaration :
  names_view
    (__init__ list_registry_add (parse_as script_var_x_5_twice) 4 "" VNone
       None).2
  = [NameRec (VStr "x") VNone (Some (VStr "5"));
     NameRec (VStr "x") VNone (Some (VStr "5"))] ∧
  names
    (__init__ list_registry_add (parse_as script_var_x_5_twice) 4 "" VNone
       None).2
  = [0; 1].
Proof. split; by vm_compute. Qed.

(** C6 fails on the code: a declarator without ['id'], a declarator whose
    ['id'] is a pattern without ['name'], and an assignment without
    ['left'] each raise [KeyError], and the exception leaves the
    constructor. *)
Lemma handlers_raise_on_missing_fields :
  (_walk list_registry_add 3 var_without_id VNone fresh).1
  = Raise (KeyError "id") ∧
  (_walk list_registry_add 3 var_array_pattern VNone fresh).1
  = Raise (KeyError "name") ∧
  (_walk list_registry_add 3 assignment_without_left VNone fresh).1
  = Raise (KeyError "left") ∧
  (__init__ list_registry_add (parse_as (Program [var_array_pattern])) 4
     "var [a] = [1];" VNone None).1
  = Raise (KeyError "name").
Proof. repeat split; by vm_compute. Qed.

(** A parser that raises on every script. *)
Lemma parse_failure_leaves_empty_analysis_witness :
  parse_fails "var = ;" = None ∧
  __init__ list_registry_add parse_fails 4 "var = ;" VNone None
  = (Done (), fresh).
Proof.
  split; [reflexivity|].
  apply (parse_failure_leaves_empty_analysis list_registry_add parse_fails 4
    "var = ;" VNone None). reflexivity.
Defined.

(** Forty [A]s are added locally when no registry is installed and when the
    registry's [add] raises; thirty-two characters outside the single-byte
    range are added locally even though a registry is installed. *)
Lemma shellcode_candidate_goes_to_one_store_witness :
  (32 ≤ length forty_A ∧ encode_latin1 thirty_two_wide = None) ∧
  add_shellcode list_registry_add (VStr forty_A) fresh
  = (Done (), with_shellcodes (λ S, {[forty_A]} ∪ S) fresh) ∧
  add_shellcode failing_registry_add (VStr forty_A) fresh_with_registry
  = (Done (), with_shellcodes (λ S, {[forty_A]} ∪ S) fresh_with_registry) ∧
  add_shellcode list_registry_add (VStr thirty_two_wide) fresh_with_registry
  = (Done (),
     with_shellcodes (λ S, {[thirty_two_wide]} ∪ S) fresh_with_registry).
Proof.
  assert (32 ≤ length forty_A) as H40 by (vm_compute; lia).
  assert (32 ≤ length thirty_two_wide) as H32 by (vm_compute; lia).
  split; [split; [exact H40|reflexivity]|]. split; [|split].
  - apply (shellcode_candidate_goes_to_one_store list_registry_add forty_A
      fresh H40). by left.
  - apply (shellcode_candidate_goes_to_one_store failing_registry_add
      forty_A fresh_with_registry H40).
    right. right. by exists [], (replicate 40 "A"%byte).
  - apply (shellcode_candidate_goes_to_one_store list_registry_add
      thirty_two_wide fresh_with_registry H32). right. by left.
Defined.

(** C2 as stated fails: with a registry installed that accepts the value,
    the forty [A]s are forwarded in single-byte form and the local set
    stays empty. *)
Lemma forwarded_candidate_is_not_added_locally :
  shellcodes
    (add_shellcode list_registry_add (VStr forty_A) fresh_with_registry).2
  = ∅ ∧
  ThugLogging
    (add_shellcode list_registry_add (VStr forty_A) fresh_with_registry).2
  = Some [replicate 40 "A"%byte].
Proof. split; by vm_compute. Qed.

(** The three-line [for] loop: its breakpoint is on line 3. *)
Lemma loop_records_its_end_line_witness :
  py "ForStatement" ∈ loop_kinds ∧
  _walk list_registry_add 1 for_three_lines VNone fresh
  = (Done (),
     record_breakpoint (Breakpoint LOOP_BREAKPOINT (VInt 3) VNone) fresh).
Proof.
  assert (py "ForStatement" ∈ loop_kinds) as Hk by (by left).
  split; [exact Hk|].
  apply (proj1 (loop_records_its_end_line list_registry_add 0 "ForStatement"
    for_three_lines VNone (loc 1 3) (dict ["line" :- VInt 3]) (VInt 3) fresh
    Hk eq_refl eq_refl eq_refl eq_refl)).
Defined.

(** C5 as stated fails: the loop's header is on line 1, and the only
    breakpoint recorded is on line 3, where the statement ends. *)
Lemma loop_breakpoint_is_not_on_header_line :
  start_line for_three_lines = Ok (VInt 1) ∧
  breakpoints (_walk list_registry_add 1 for_three_lines VNone fresh).2
  = [Breakpoint LOOP_BREAKPOINT (VInt 3) VNone].
Proof. split; by vm_compute. Qed.

Ltac decide_elem := refine (bool_decide_unpack _ _); vm_compute; exact I.

Ltac expression_node := eexists; split; [reflexivity|decide_elem].

(** The [return] of a forty-character literal, and a call with a short and
    a long literal argument: each literal reaches [add_shellcode]. *)
Lemma literal_is_candidate_iff_long_text_witness :
  (getitem return_long_literal "type" = Ok (VStr "ReturnStatement") ∧
   is_dict (Literal (VStr forty_A) forty_A_raw 1)) ∧
  _walk list_registry_add 1 return_long_literal VNone fresh
  = add_shellcode list_registry_add (VStr forty_A) fresh ∧
  _walk list_registry_add 1 call_with_literals VNone fresh
  = (Done (), with_shellcodes (λ S, {[forty_A]} ∪ S) fresh).
Proof.
  assert (is_dict (Literal (VStr forty_A) forty_A_raw 1)) as Hd
    by (eexists; reflexivity).
  split; [split; [reflexivity|exact Hd]|]. split.
  - destruct (literal_is_candidate_iff_long_text list_registry_add 0
      return_long_literal VNone fresh) as (_ & Hreturn & _).
    exact (Hreturn (Literal (VStr forty_A) forty_A_raw 1) eq_refl eq_refl Hd).
  - destruct (literal_is_candidate_iff_long_text list_registry_add 0
      call_with_literals VNone fresh) as (_ & _ & Hcall & _).
    etransitivity.
    + refine (Hcall
        (CallExpression (Identifier "callme" 1)
           [Literal (VStr "short") "'short'" 1;
            Literal (VStr forty_A) forty_A_raw 1] 1)
        [Literal (VStr "short") "'short'" 1;
         Literal (VStr forty_A) forty_A_raw 1]
        eq_refl eq_refl eq_refl eq_refl _).
      repeat constructor; eexists; reflexivity.
    + by vm_compute.
Defined.

(** C4 as stated fails for a declarator's initializer: after
    [var a = "AAAA...A";] with forty [A]s and no registry installed, the
    local set is empty. *)
Lemma long_initializer_is_not_a_candidate :
  32 ≤ length forty_A ∧
  shellcodes
    (__init__ list_registry_add (parse_as script_var_long_literal) 4 ""
       VNone None).2
  = ∅ ∧
  ThugLogging
    (__init__ list_registry_add (parse_as script_var_long_literal) 4 ""
       VNone (Some [])).2
  = Some [].
Proof. split; [vm_compute; lia|]. split; by vm_compute. Qed.

(** The comparison [x == 1;] changes nothing, and [a.b = 1;], whose
    left-hand side is not a bare identifier, records its breakpoint. *)
Lemma assignment_operator_filter_witness :
  (getitem comparison_statement "type" = Ok (VStr "ExpressionStatement") ∧
   findings (_walk list_registry_add 3 comparison_statement VNone fresh).2
   = findings fresh) ∧
  (getitem member_assignment "type" = Ok (VStr "ExpressionStatement") ∧
   ∃ self',
     _walk list_registry_add 2 member_assignment VNone fresh
     = (Done (), self') ∧
     Breakpoint ASSIGN_BREAKPOINT (VInt 1) VNone ∈ breakpoints self' ∧
     ∀ x, getitem
            (MemberExpression (Identifier "a" 1) (Identifier "b" 1) 1)
            "name" = Ok x →
       NameRec x VNone None ∈ names_view self').
Proof.
  split; (split; [reflexivity|]).
  - apply (proj1 (assignment_operator_filter list_registry_add 3
      comparison_statement VNone fresh eq_refl)).
    intros e op He Hop. vm_compute in He. injection He as <-.
    vm_compute in Hop. injection Hop as <-. decide_elem.
  - eapply (proj2 (assignment_operator_filter list_registry_add 0
      member_assignment VNone fresh eq_refl));
      first [reflexivity | decide_elem | expression_node].
Defined.


(** * The further properties on concrete scripts *)

(** An analysis that holds the binding of a top-level [var x;] and nothing
    else. *)
Abbreviation after_var_x :=
  (@mkAST (list (list byte)) [NameRec (VStr "x") VNone None] [0] [] [] ∅ ∅
     VNone None None).

Lemma after_var_x_refs_valid : refs_valid after_var_x.
Proof.
  split; intros r Hr; simpl in *; [|by apply elem_of_nil in Hr].
  apply list_elem_of_singleton in Hr. subst. lia.
Qed.

(** The script of the module's function test has height at most 12 and
    no null body, so a budget of 13 is enough for it. *)
Lemma constructor_settles_witness :
  height_le 12 (Program [function_foo]) = true ∧
  (__init__ list_registry_add (parse_as (Program [function_foo])) 13 ""
     VNone None).1
  ≠ OutOfFuel.
Proof.
  assert (height_le 12 (Program [function_foo]) = true) as Hh
    by (by vm_compute).
  split; [exact Hh|].
  apply (constructor_settles list_registry_add
    (parse_as (Program [function_foo])) 12 "" VNone None
    (Program [function_foo]) eq_refl Hh).
  apply (no_null_body_check 12); [exact Hh|by vm_compute].
Defined.

(** The function test, and the second walk the module's tests make after
    the constructor. *)
Lemma breakpoints_never_repeat_witness :
  NoDup
    (breakpoints
       (__init__ list_registry_add (parse_as (Program [function_foo])) 13 ""
          VNone None).2) ∧
  NoDup
    (breakpoints
       (walk list_registry_add 13 VNone VNone
          (__init__ list_registry_add (parse_as (Program [function_foo])) 13
             "" VNone None).2).2).
Proof.
  pose proof (breakpoints_never_repeat list_registry_add
    (parse_as (Program [function_foo])) 13 "" VNone None 13 VNone VNone
    (__init__ list_registry_add (parse_as (Program [function_foo])) 13 ""
       VNone None).2) as [H1 H2].
  split; [exact H1|exact (H2 H1)].
Defined.

(** The forty [A]s that [test1] returns are in the local set, and they are
    at least 32. *)
Lemma local_candidates_are_long_witness :
  forty_A
  ∈ shellcodes
      (__init__ list_registry_add (parse_as (Program [function_test1])) 13 ""
         VNone None).2 ∧
  32 ≤ length forty_A.
Proof.
  assert (forty_A
    ∈ shellcodes
        (__init__ list_registry_add (parse_as (Program [function_test1])) 13
           "" VNone None).2) as Hin by decide_elem.
  split; [exact Hin|].
  exact (proj1 (local_candidates_are_long list_registry_add
    (parse_as (Program [function_test1])) 13 "" VNone None 0 VNone VNone
    fresh forty_A) Hin).
Defined.

(** After [var x;], the walk of [var x = 5;] and a loop: the binding of [x]
    is still the first one. *)
Lemma walk_only_appends_witness :
  refs_valid after_var_x ∧
  (plain <$> names_view after_var_x) `prefix_of`
    (plain <$>
       names_view
         (walk list_registry_add 3 (VList [var_x_5; for_three_lines]) VNone
            after_var_x).2).
Proof.
  split; [exact after_var_x_refs_valid|].
  exact (proj1 (proj2 (walk_only_appends list_registry_add 3
    (VList [var_x_5; for_three_lines]) VNone after_var_x)
    after_var_x_refs_valid)).
Defined.

(** A call expression that is dispatched, as the right-hand side of an
    assignment is: its long literal argument is not looked at. *)
Lemma node_without_handler_is_skipped_witness :
  getitem call_long_literal "type" = Ok (VStr "CallExpression") ∧
  (py "CallExpression" ∉ handler_kinds) ∧
  _walk list_registry_add 1 call_long_literal VNone fresh = (Done (), fresh).
Proof.
  assert (py "CallExpression" ∉ handler_kinds) as Hk by decide_elem.
  split; [reflexivity|]. split; [exact Hk|].
  apply (node_without_handler_is_skipped list_registry_add 0
    call_long_literal VNone (VStr "CallExpression") fresh eq_refl).
  by intros s [= <-].
Defined.

(** A block node given to [walk] in place of its statement list. *)
Lemma walk_over_a_node_raises_witness :
  truthy (BlockStatement [var_statement "x" 1] 1 1) = true ∧
  walk list_registry_add 1 (BlockStatement [var_statement "x" 1] 1 1) VNone
    fresh
  = (Raise TypeError, fresh).
Proof.
  assert (truthy (BlockStatement [var_statement "x" 1] 1 1) = true) as Ht
    by (by vm_compute).
  split; [exact Ht|].
  apply (walk_over_a_node_raises list_registry_add 0
    (BlockStatement [var_statement "x" 1] 1 1) VNone fresh); [|exact Ht].
  intros l. discriminate.
Defined.

(** [var x;], then [var [a] = [1];], then [var y;]: the second statement
    raises, [x] is bound and [y] is not. *)
Lemma raising_statement_ends_the_walk_witness :
  walk list_registry_add 3 (VList [var_statement "x" 1]) VNone fresh
  = (Done (), after_var_x) ∧
  _walk list_registry_add 3 var_array_pattern VNone after_var_x
  = (Raise (KeyError "name"), after_var_x) ∧
  walk list_registry_add 3
    (VList ([var_statement "x" 1] ++ var_array_pattern ::
            [var_statement "y" 3])) VNone fresh
  = (Raise (KeyError "name"), after_var_x).
Proof.
  assert (walk list_registry_add 3 (VList [var_statement "x" 1]) VNone fresh
    = (Done (), after_var_x)) as H1 by (by vm_compute).
  assert (_walk list_registry_add 3 var_array_pattern VNone after_var_x
    = (Raise (KeyError "name"), after_var_x)) as H2 by (by vm_compute).
  split; [exact H1|]. split; [exact H2|].
  exact (raising_statement_ends_the_walk list_registry_add 3
    [var_statement "x" 1] var_array_pattern [var_statement "y" 3] VNone
    (KeyError "name") fresh after_var_x after_var_x H1 H2).
Defined.

Ltac branch_cases Hk Hb :=
  rewrite !elem_of_cons, elem_of_nil in Hk;
  destruct Hk as [->|[->|[]]]; vm_compute in Hb; injection Hb as <-.

(** [if (a) { var t; } else { var e; }]: [e] is bound before [t]. *)
Lemma if_statement_walks_else_block_then_then_block_witness :
  getitem if_with_two_blocks "type" = Ok (VStr "IfStatement") ∧
  _walk list_registry_add 3 if_with_two_blocks VNone fresh
  = walk list_registry_add 2
      (VList (branch_block if_with_two_blocks "alternate" ++
              branch_block if_with_two_blocks "consequent")) VNone fresh ∧
  names_view (_walk list_registry_add 3 if_with_two_blocks VNone fresh).2
  = [NameRec (VStr "e") VNone None; NameRec (VStr "t") VNone None].
Proof.
  split; [reflexivity|]. split; [|by vm_compute].
  apply (if_statement_walks_else_block_then_then_block list_registry_add 2
    if_with_two_blocks VNone fresh eq_refl).
  intros k branch Hk Hb. branch_cases Hk Hb;
    (eexists; split; [reflexivity|right; eexists; reflexivity]).
Defined.

(** [if (a) y = "AAAA...A"; else if (b) { var z; }]: neither the assignment
    nor the declaration is seen. *)
Lemma if_branch_that_is_no_block_is_skipped_witness :
  getitem if_without_blocks "type" = Ok (VStr "IfStatement") ∧
  _walk list_registry_add 5 if_without_blocks VNone fresh = (Done (), fresh).
Proof.
  split; [reflexivity|].
  apply (if_branch_that_is_no_block_is_skipped list_registry_add 4
    if_without_blocks VNone fresh eq_refl).
  intros k branch Hk Hb. branch_cases Hk Hb; reflexivity.
Defined.

(** [if (a) while (b) {}] *)
Lemma if_branch_with_node_body_raises_witness :
  (contains "alternate" if_with_bare_loop = Ok false ∧
   truthy (BlockStatement [] 1 1) = true) ∧
  _walk list_registry_add 2 if_with_bare_loop VNone fresh
  = (Raise TypeError, fresh).
Proof.
  assert (truthy (BlockStatement [] 1 1) = true) as Ht by (by vm_compute).
  split; [split; [reflexivity|exact Ht]|].
  apply (if_branch_with_node_body_raises list_registry_add 0
    if_with_bare_loop VNone "consequent"
    (WhileStatement (Identifier "b" 1) (BlockStatement [] 1 1) 1 1)
    (BlockStatement [] 1 1) fresh eq_refl);
    [right; by split|reflexivity|reflexivity| |exact Ht].
  intros l. discriminate.
Defined.

(** [a = 1, b = "AAAA...A";]: the two assignments of the sequence leave no
    trace. *)
Lemma other_expression_statement_is_ignored_witness :
  getitem sequence_statement "type" = Ok (VStr "ExpressionStatement") ∧
  _walk list_registry_add 3 sequence_statement VNone fresh
  = (Done (), fresh).
Proof.
  split; [reflexivity|].
  eapply (other_expression_statement_is_ignored list_registry_add 2
    sequence_statement VNone _ (VStr "SequenceExpression") fresh eq_refl);
    [reflexivity|reflexivity|..]; intros H; vm_compute in H; discriminate.
Defined.

(** [var x;] from a fresh analysis, and again once [x] is bound. *)
Lemma declarator_without_initializer_witness :
  (∃ self',
     _walk list_registry_add 1 (var_statement "x" 1) VNone fresh
     = (Done (), self') ∧
     refs_valid self' ∧
     names_view self' = [NameRec (VStr "x") VNone None] ∧
     assignments_view self' = [] ∧ breakpoints self' = [] ∧
     stores self' = stores fresh) ∧
  ∃ self',
    _walk list_registry_add 1 (var_statement "x" 1) VNone after_var_x
    = (Done (), self') ∧
    refs_valid self' ∧
    names_view self' = [NameRec (VStr "x") VNone None] ∧
    assignments_view self' = [] ∧ breakpoints self' = [] ∧
    stores self' = stores after_var_x.
Proof.
  split.
  - apply (declarator_without_initializer list_registry_add 0
      (var_statement "x" 1) VNone
      (VariableDeclarator (Identifier "x" 1) None 1) (Identifier "x" 1)
      (VStr "x") fresh); try reflexivity.
    split; intros r Hr; by apply elem_of_nil in Hr.
  - apply (declarator_without_initializer list_registry_add 0
      (var_statement "x" 1) VNone
      (VariableDeclarator (Identifier "x" 1) None 1) (Identifier "x" 1)
      (VStr "x") after_var_x); try reflexivity.
    exact after_var_x_refs_valid.
Defined.

(** [var x = 5;] once [x] is bound: the bindings keep the pair, the value
    assignment is the triple. *)
Lemma declarator_with_literal_initializer_witness :
  ∃ self',
    _walk list_registry_add 1 var_x_5 VNone after_var_x = (Done (), self') ∧
    refs_valid self' ∧
    names_view self' = [NameRec (VStr "x") VNone None] ∧
    assignments_view self' = [NameRec (VStr "x") VNone (Some (VStr "5"))] ∧
    breakpoints self' = [Breakpoint ASSIGN_BREAKPOINT (VInt 2) VNone] ∧
    stores self' = stores after_var_x.
Proof.
  apply (declarator_with_literal_initializer list_registry_add 0 var_x_5
    VNone
    (VariableDeclarator (Identifier "x" 2) (Some (Literal (VInt 5) "5" 2)) 2)
    (Identifier "x" 2) (VStr "x") (Literal (VInt 5) "5" 2) (VStr "5")
    (loc 2 2) (dict ["line" :- VInt 2]) (VInt 2) after_var_x);
    try reflexivity.
  exact after_var_x_refs_valid.
Defined.

(** [var a = b;] *)
Lemma declarator_with_other_initializer_witness :
  ∃ self',
    _walk list_registry_add 1 var_a_b VNone fresh = (Done (), self') ∧
    refs_valid self' ∧
    names_view self' = [NameRec (VStr "a") VNone None] ∧
    assignments_view self' = [] ∧
    breakpoints self' = [Breakpoint ASSIGN_BREAKPOINT (VInt 2) VNone] ∧
    stores self' = stores fresh.
Proof.
  apply (declarator_with_other_initializer list_registry_add 0 var_a_b VNone
    (VariableDeclarator (Identifier "a" 2) (Some (Identifier "b" 2)) 2)
    (Identifier "a" 2) (VStr "a") (Identifier "b" 2)
    (loc 2 2) (dict ["line" :- VInt 2]) (VInt 2) fresh);
    try reflexivity.
  split; intros r Hr; by apply elem_of_nil in Hr.
Defined.

(** The array pattern of [var [a] = [1];] raises a [KeyError] out of the
    constructor.  The tree's height is at most 12, so a budget of 13 is
    within the limit. *)
Lemma raise_of_walk_is_lookup_error_witness :
  ((__init__ list_registry_add (parse_as (Program [var_array_pattern])) 4 ""
      VNone None).1
   = Raise (KeyError "name") ∧
   height_le 12 (Program [var_array_pattern]) = true) ∧
  (lookup_error (KeyError "name") ∧
   KeyError "name" ≠ UnicodeEncodeError ∧ KeyError "name" ≠ RegistryError) ∧
  ((__init__ list_registry_add (parse_as (Program [var_array_pattern])) 13 ""
      VNone None).1
   = Done () ∨
   ∃ e',
     (__init__ list_registry_add (parse_as (Program [var_array_pattern])) 13
        "" VNone None).1
     = Raise e' ∧
     lookup_error e').
Proof.
  assert ((__init__ list_registry_add (parse_as (Program [var_array_pattern]))
             4 "" VNone None).1
          = Raise (KeyError "name")) as H by (by vm_compute).
  assert (height_le 12 (Program [var_array_pattern]) = true) as Hh
    by (by vm_compute).
  split; [split; [exact H|exact Hh]|].
  destruct (raise_of_walk_is_lookup_error list_registry_add
    (parse_as (Program [var_array_pattern])) 4 "" VNone None 0 VNone VNone
    fresh (KeyError "name") (Program [var_array_pattern]) 12)
    as (Hinit & _ & _).
  destruct (raise_of_walk_is_lookup_error list_registry_add
    (parse_as (Program [var_array_pattern])) 13 "" VNone None 0 VNone VNone
    fresh (KeyError "name") (Program [var_array_pattern]) 12)
    as (_ & _ & Hbudget).
  split; [exact (Hinit H)|].
  apply (Hbudget eq_refl Hh).
  apply (no_null_body_check 12); [exact Hh|by vm_compute].
Defined.

(** [y = "AAAA...A";] *)
Lemma assigned_literal_is_kept_witness :
  32 ≤ length forty_A ∧
  forty_A
  ∈ shellcodes (_walk list_registry_add 2 assign_long_literal VNone fresh).2.
Proof.
  assert (32 ≤ length forty_A) as Hlen by (vm_compute; lia).
  split; [exact Hlen|].
  eapply (assigned_literal_is_kept list_registry_add 0 assign_long_literal
    VNone _ _ (Identifier "y" 1) (Literal (VStr forty_A) forty_A_raw 1)
    forty_A fresh eq_refl);
    first [reflexivity | exact Hlen | decide_elem | expression_node].
Defined.
